(** * Exchange calendars: schedule construction, minute grid and registry

    A shallow embedding of [zipline/utils/calendars/exchange_calendar.py].

    Instants are pandas [Timestamp]s, held as in the source's
    [datetime64[ns]] arrays: a signed count of nanoseconds since the
    epoch, here an integer of [Z].  A [DatetimeIndex] is a [list Z].
    Exceptions are values of [error]; a function that can raise returns
    a [result].  The module-level dictionary [_static_calendars] is a
    [gmap] threaded through a small state-and-error monad. *)

From Stdlib Require Import ZArith Lia List Sorted.
From stdpp Require Import base numbers list sorting strings gmap.

Local Open Scope Z_scope.

(** ** Exceptions *)

Inductive error : Type :=
  | SpecialDatesNotTradingDays (bad_dates : list Z)
      (* ValueError("Special dates %s are not trading days.") *)
  | NotEnoughFormatArguments
      (* TypeError raised by ["...%d...%d" % len_m] *)
  | NegativeDimensions
      (* ValueError of np.empty on a negative size *)
  | CannotBroadcast (src dst : Z)
      (* ValueError of a slice assignment whose shapes differ *)
  | IndexOutOfBounds
      (* IndexError of [_all_days[0]] on an empty index *)
  | NoFurtherData
      (* the out-of-range failure of session navigation *)
  | KeyError (key : string)
  | InvalidCalendarName (calendar_name : string)
  | CalendarNameCollision (calendar_name : string).

Inductive result (A : Type) : Type :=
  | Ok (a : A)
  | Err (e : error).
Arguments Ok {A} a.
Arguments Err {A} e.

Global Instance result_bind : MBind result := λ A B k r,
  match r with
  | Ok a => k a
  | Err e => Err e
  end.

Global Instance result_ret : MRet result := λ A a, Ok a.

Global Instance result_fmap : FMap result := λ A B f r,
  match r with
  | Ok a => Ok (f a)
  | Err e => Err e
  end.

(** ** Time *)

Definition NANOS_IN_MINUTE : Z := 60000000000.
Definition NANOS_IN_SECOND : Z := 1000000000.
Definition NANOS_IN_HOUR : Z := 60 * NANOS_IN_MINUTE.
Definition NANOS_IN_DAY : Z := 24 * NANOS_IN_HOUR.

(** [datetime.time], as far as [days_at_time] reads it. *)
Record time : Type := mk_time { hour : Z; minute : Z; second : Z }.

(** A timezone is what [tz_localize] needs of it: the UTC offset, in
    nanoseconds, that the zone assigns to a wall-clock reading (the zone
    library's resolution of ambiguous and missing readings included). *)
Record timezone : Type := mk_timezone { utcoffset : Z → Z }.

Definition UTC : timezone := {| utcoffset := λ _, 0 |}.

(** [idx.tz_localize(tz)] on a naive reading, kept as a UTC instant. *)
Definition tz_localize (tz : timezone) (naive : Z) : Z :=
  naive - utcoffset tz naive.

(** [Timestamp.normalize()] of a UTC instant: midnight of its UTC day. *)
Definition normalize (t : Z) : Z := t - t `mod` NANOS_IN_DAY.

(** [DateOffset(hour=h, minute=m, second=s)]: the singular keywords
    replace the fields of the wall-clock reading; finer fields stay. *)
Definition replace_hms (naive : Z) (t : time) : Z :=
  naive - naive `mod` NANOS_IN_DAY
  + hour t * NANOS_IN_HOUR + minute t * NANOS_IN_MINUTE
  + second t * NANOS_IN_SECOND
  + naive `mod` NANOS_IN_SECOND.

(** One entry of [days_at_time]: drop the zone of the day, read it as a
    wall-clock day of [tz], add [day_offset] calendar days, set the time
    of day to [t], and convert that local reading to UTC. *)
Definition day_at_time (t : time) (tz : timezone) (day_offset : Z) (day : Z) : Z :=
  let days_offset := day + day_offset * NANOS_IN_DAY in
  let shifted := replace_hms days_offset t in
  tz_localize tz shifted.

Definition days_at_time (days : list Z) (t : time) (tz : timezone)
    (day_offset : Z) : list Z :=
  day_at_time t tz day_offset <$> days.

(** ** Holiday calendars and business days *)

(** A pandas holiday calendar, as the dates (naive midnights) its rules
    produce; [holidays start end] keeps those of the closed range. *)
Definition holiday_calendar : Type := list Z.

Definition holidays (calendar : holiday_calendar) (start end_ : Z) : list Z :=
  filter (λ d, start ≤ d ≤ end_) calendar.

Definition holidays_at_time (calendar : holiday_calendar) (start end_ : Z)
    (t : time) (tz : timezone) : list Z :=
  days_at_time (holidays calendar start end_) t tz 0.

(** Day of the week of an instant, Monday = 0; the epoch is a Thursday. *)
Definition weekday (t : Z) : Z := (t `div` NANOS_IN_DAY + 3) `mod` 7.

(** [CustomBusinessDay(holidays=adhoc, calendar=cal)]. *)
Record CustomBusinessDay : Type := mk_cbday {
  cbd_holidays : list Z;
  cbd_calendar : holiday_calendar
}.

Definition is_on_offset (day : CustomBusinessDay) (t : Z) : bool :=
  bool_decide (weekday t < 5)
  && bool_decide (normalize t ∉ cbd_holidays day)
  && bool_decide (normalize t ∉ cbd_calendar day).

(** [date_range(start, end, freq=day, tz='UTC')]: the instants
    [start + k days] up to [end] that fall on a business day. *)
Definition date_range (start end_ : Z) (day : CustomBusinessDay) : list Z :=
  filter (λ t, is_on_offset day t)
    ((λ k : nat, start + Z.of_nat k * NANOS_IN_DAY)
       <$> seq 0 (Z.to_nat ((end_ - start) `div` NANOS_IN_DAY + 1))).

(** ** Index union

    [Index.union] by its contract: the entries of both indexes, sorted,
    each once. *)
Fixpoint insert_sorted (x : Z) (l : list Z) : list Z :=
  match l with
  | [] => [x]
  | y :: l' =>
      if x <? y then x :: l
      else if x =? y then l
      else y :: insert_sorted x l'
  end.

Definition sort_unique (l : list Z) : list Z := foldr insert_sorted [] l.

Definition index_union (this other : list Z) : list Z :=
  sort_unique (this ++ other).

Definition union_many (this : list Z) (others : list (list Z)) : list Z :=
  fold_left index_union others this.

(** ** The overlay of special opens and closes *)

Fixpoint index_of (x : Z) (l : list Z) : option nat :=
  match l with
  | [] => None
  | y :: l' => if decide (x = y) then Some 0%nat else S <$> index_of x l'
  end.

(** [Index.get_indexer]: the position of each target, [-1] when absent. *)
Definition get_indexer (index targets : list Z) : list Z :=
  (λ t, match index_of t index with
        | Some i => Z.of_nat i
        | None => -1
        end) <$> targets.

(** [values[indexer] = new_values]: the writes happen in order, so a
    position named twice keeps the later value. *)
Definition fancy_assign (values : list Z) (indexer new_values : list Z) : list Z :=
  fold_left (λ acc iv, <[Z.to_nat iv.1 := iv.2]> acc) (zip indexer new_values) values.

(** The entries of [special] that [indexer == -1] selects. *)
Definition bad_dates_of (indexer special : list Z) : list Z :=
  (zip indexer special ≫= λ iv, if decide (iv.1 = -1) then [iv.2] else []).

(** [_overwrite_special_dates] returns the new contents of
    [opens_or_closes], which the source overwrites in place. *)
Definition _overwrite_special_dates
    (midnight_utcs opens_or_closes special_opens_or_closes : list Z)
    : result (list Z) :=
  if decide (length special_opens_or_closes = 0%nat) then Ok opens_or_closes
  else
    let len_m := length midnight_utcs in
    let len_oc := length opens_or_closes in
    if decide (len_m ≠ len_oc) then Err NotEnoughFormatArguments
    else
      let indexer := get_indexer midnight_utcs (normalize <$> special_opens_or_closes) in
      if decide (-1 ∈ indexer)
      then Err (SpecialDatesNotTradingDays (bad_dates_of indexer special_opens_or_closes))
      else Ok (fancy_assign opens_or_closes indexer special_opens_or_closes).

(** ** Exchange calendars *)

(** A row of [schedule]: the session date and its two columns. *)
Record session : Type := mk_session {
  session_label : Z;
  market_open : Z;
  market_close : Z
}.

(** What a concrete exchange class declares: the abstract properties
    and the hooks that [ExchangeCalendar] reads. *)
Record ExchangeCalendarClass : Type := mk_class {
  name : string;
  tz : timezone;
  native_timezone : timezone;
  open_time : time;
  close_time : time;
  open_offset : Z;
  close_offset : Z;
  holidays_calendar : holiday_calendar;
  holidays_adhoc : list Z;
  special_opens_calendars : list (time * holiday_calendar);
  special_opens_adhoc : list (time * list Z);
  special_closes_calendars : list (time * holiday_calendar);
  special_closes_adhoc : list (time * list Z);
  session_date : list session → Z → Z;
  is_open_on_day : list session → Z → bool
}.

(** An instance, with the attributes [__init__] sets. *)
Record ExchangeCalendar : Type := mk_calendar {
  class_of : ExchangeCalendarClass;
  day : CustomBusinessDay;
  _opens : list Z;
  _closes : list Z;
  schedule : list session;
  first_trading_day : Z;
  last_trading_day : Z;
  early_closes : list Z
}.

Definition _special_dates (self : ExchangeCalendarClass)
    (calendars : list (time * holiday_calendar))
    (ad_hoc_dates : list (time * list Z))
    (start_date end_date : Z) : list Z :=
  let tz := native_timezone self in
  let _dates :=
    union_many []
      (((λ tc : time * holiday_calendar,
           holidays_at_time tc.2 start_date end_date tc.1 tz) <$> calendars)
       ++ ((λ td : time * list Z, days_at_time td.2 td.1 tz 0) <$> ad_hoc_dates)) in
  filter (λ d, start_date ≤ d ≤ end_date) _dates.

Definition _special_opens (self : ExchangeCalendarClass) (start end_ : Z) : list Z :=
  _special_dates self (special_opens_calendars self) (special_opens_adhoc self)
    start end_.

Definition _special_closes (self : ExchangeCalendarClass) (start end_ : Z) : list Z :=
  _special_dates self (special_closes_calendars self) (special_closes_adhoc self)
    start end_.

(** The business days of [__init__], before any overlay. *)
Definition all_days_of (self : ExchangeCalendarClass) (start end_ : Z) : list Z :=
  date_range start end_
    {| cbd_holidays := holidays_adhoc self; cbd_calendar := holidays_calendar self |}.

(** [DataFrame(index=..., data={'market_open': ..., 'market_close': ...})]. *)
Definition DataFrame (index opens closes : list Z) : list session :=
  zip_with (λ d oc, mk_session d oc.1 oc.2) index (zip opens closes).

(** [idx[0]] and [idx[-1]]. *)
Definition first_of (idx : list Z) : result Z :=
  match head idx with Some x => Ok x | None => Err IndexOutOfBounds end.

Definition last_of (idx : list Z) : result Z :=
  match last idx with Some x => Ok x | None => Err IndexOutOfBounds end.

Definition __init__ (self : ExchangeCalendarClass) (start end_ : Z)
    : result ExchangeCalendar :=
  let day := {| cbd_holidays := holidays_adhoc self;
                cbd_calendar := holidays_calendar self |} in
  let _all_days := date_range start end_ day in
  let opens := days_at_time _all_days (open_time self) (tz self) (open_offset self) in
  let closes := days_at_time _all_days (close_time self) (tz self) (close_offset self) in
  let special_opens := _special_opens self start end_ in
  let special_closes := _special_closes self start end_ in
  opens ← _overwrite_special_dates _all_days opens special_opens;
  closes ← _overwrite_special_dates _all_days closes special_closes;
  let schedule := DataFrame _all_days opens closes in
  first ← first_of _all_days;
  last ← last_of _all_days;
  Ok {| class_of := self;
        day := day;
        _opens := opens;
        _closes := closes;
        schedule := schedule;
        first_trading_day := first;
        last_trading_day := last;
        early_closes := session_date self schedule <$> special_closes |}.

Definition all_trading_days (self : ExchangeCalendar) : list Z :=
  session_label <$> schedule self.

(** ** The minute grid *)

(** A numpy [int64]: arithmetic wraps around. *)
Definition wrap64 (z : Z) : Z := (z + 2 ^ 63) `mod` 2 ^ 64 - 2 ^ 63.

(** [np.arange(start, stop, step)] for a positive step. *)
Definition arange (start stop step : Z) : list Z :=
  (λ k : nat, start + Z.of_nat k * step)
    <$> seq 0 (Z.to_nat ((stop - start + step - 1) `div` step)).

(** The bounds Python gives [a[lo:hi]] on a sequence of length [n]. *)
Definition slice_index (n i : Z) : Z :=
  if i <? 0 then Z.max 0 (i + n) else Z.min i n.

(** [a[lo:hi] = vals]: the shapes must agree, or [vals] have one entry,
    which is then repeated. *)
Definition slice_assign (a : list Z) (lo hi : Z) (vals : list Z) : result (list Z) :=
  let n := Z.of_nat (length a) in
  let lo' := slice_index n lo in
  let hi' := slice_index n hi in
  let len := Z.to_nat (hi' - lo') in
  if decide (length vals = len) then
    Ok (take (Z.to_nat lo') a ++ vals ++ drop (Z.to_nat lo' + len) a)
  else
    match vals with
    | [v] => Ok (take (Z.to_nat lo') a ++ replicate len v ++ drop (Z.to_nat lo' + len) a)
    | _ => Err (CannotBroadcast (Z.of_nat (length vals)) (Z.of_nat len))
    end.

(** [np.empty(n)]; the cells are unspecified until written, here [0]. *)
Definition np_empty (n : Z) : result (list Z) :=
  if n <? 0 then Err NegativeDimensions else Ok (replicate (Z.to_nat n) 0).

(** The loop of [all_trading_minutes] over [enumerate(daily_sizes)],
    started at day [day_idx] with write position [idx]. *)
Fixpoint fill_minutes (opens_in_ns closes_in_ns daily_sizes : list Z)
    (idx : Z) (all_minutes : list Z) : result (list Z) :=
  match daily_sizes, opens_in_ns, closes_in_ns with
  | size :: sizes, o :: os, c :: cs =>
      all_minutes ←
        slice_assign all_minutes idx (wrap64 (idx + size))
          (arange o (wrap64 (c + NANOS_IN_MINUTE)) NANOS_IN_MINUTE);
      fill_minutes os cs sizes (wrap64 (idx + size)) all_minutes
  | _, _, _ => Ok all_minutes
  end.

(** [all_trading_minutes], on the arrays behind [_opens] and [_closes];
    [/] is the division of two [int64], which rounds down. *)
Definition all_trading_minutes_of (opens_in_ns closes_in_ns : list Z)
    : result (list Z) :=
  let deltas := zip_with (λ c o, wrap64 (c - o)) closes_in_ns opens_in_ns in
  let daily_sizes := (λ d, wrap64 (d `div` NANOS_IN_MINUTE + 1)) <$> deltas in
  let num_minutes := wrap64 (foldr Z.add 0 daily_sizes) in
  all_minutes ← np_empty num_minutes;
  fill_minutes opens_in_ns closes_in_ns daily_sizes 0 all_minutes.

Definition all_trading_minutes (self : ExchangeCalendar) : result (list Z) :=
  all_trading_minutes_of (_opens self) (_closes self).

(** ** Session navigation *)

(** Modelled from the spec: [next_scheduled_day] of [calendar_helpers.py],
    which is not among the sources.  "Smallest business day strictly
    greater than [d] that is in range; fails with an out-of-range error
    if [d >= last_trading_day]": the days after [date] are tried in
    order, up to [last_trading_day], against the hook. *)
Fixpoint next_scheduled_from (fuel : nat) (dt last_trading_day : Z)
    (is_scheduled_day_hook : Z → bool) : result Z :=
  match fuel with
  | O => Err NoFurtherData
  | S fuel' =>
      let dt' := dt + NANOS_IN_DAY in
      if last_trading_day <? dt' then Err NoFurtherData
      else if is_scheduled_day_hook dt' then Ok dt'
      else next_scheduled_from fuel' dt' last_trading_day is_scheduled_day_hook
  end.

Definition next_scheduled_day (date last_trading_day : Z)
    (is_scheduled_day_hook : Z → bool) : result Z :=
  if last_trading_day <=? date then Err NoFurtherData
  else next_scheduled_from
         (Z.to_nat ((last_trading_day - date) `div` NANOS_IN_DAY))
         date last_trading_day is_scheduled_day_hook.

(** Modelled from the spec: [previous_scheduled_day] of
    [calendar_helpers.py], which is not among the sources.  "Largest
    business day strictly less than [d]; fails if
    [d <= first_trading_day]". *)
Fixpoint previous_scheduled_from (fuel : nat) (dt first_trading_day : Z)
    (is_scheduled_day_hook : Z → bool) : result Z :=
  match fuel with
  | O => Err NoFurtherData
  | S fuel' =>
      let dt' := dt - NANOS_IN_DAY in
      if dt' <? first_trading_day then Err NoFurtherData
      else if is_scheduled_day_hook dt' then Ok dt'
      else previous_scheduled_from fuel' dt' first_trading_day is_scheduled_day_hook
  end.

Definition previous_scheduled_day (date first_trading_day : Z)
    (is_scheduled_day_hook : Z → bool) : result Z :=
  if date <=? first_trading_day then Err NoFurtherData
  else previous_scheduled_from
         (Z.to_nat ((date - first_trading_day) `div` NANOS_IN_DAY))
         date first_trading_day is_scheduled_day_hook.

Definition next_trading_day (self : ExchangeCalendar) (date : Z) : result Z :=
  next_scheduled_day date (last_trading_day self)
    (is_open_on_day (class_of self) (schedule self)).

Definition previous_trading_day (self : ExchangeCalendar) (date : Z) : result Z :=
  previous_scheduled_day date (first_trading_day self)
    (is_open_on_day (class_of self) (schedule self)).

(** ** The calendar registry *)

(** A calendar object: the instance and its identity. *)
Record object : Type := mk_object {
  obj_id : nat;
  obj_calendar : ExchangeCalendar
}.

Definition calendar_name (calendar : object) : string :=
  name (class_of (obj_calendar calendar)).

(** The interpreter state the registry functions touch: the dictionary
    [_static_calendars] and the identity of the next object built. *)
Record globals : Type := mk_globals {
  _static_calendars : gmap string object;
  next_obj_id : nat
}.

Definition with_calendars (g : globals) (m : gmap string object) : globals :=
  {| _static_calendars := m; next_obj_id := next_obj_id g |}.

(** Computations over [globals] that may raise; what was written before
    an exception stays written. *)
Definition M (A : Type) : Type := globals → result A * globals.

Definition ret {A} (a : A) : M A := λ g, (Ok a, g).
Definition raise {A} (e : error) : M A := λ g, (Err e, g).
Definition bind {A B} (m : M A) (k : A → M B) : M B := λ g,
  match m g with
  | (Ok a, g') => k a g'
  | (Err e, g') => (Err e, g')
  end.

Notation "'do!' x := m 'in' k" := (bind m (λ x, k))
  (at level 10, x name, m at level 100, k at level 200, only parsing).

Definition deregister_calendar (cal_name : string) : M unit := λ g,
  (Ok (), with_calendars g (delete cal_name (_static_calendars g))).

Definition clear_calendars : M unit := λ g,
  (Ok (), with_calendars g ∅).

Definition register_calendar (calendar : object) (force : bool) : M unit :=
  do! _u := (if force then deregister_calendar (calendar_name calendar) else ret ()) in
  λ g,
    if decide (is_Some (_static_calendars g !! calendar_name calendar))
    then (Err (CalendarNameCollision (calendar_name calendar)), g)
    else (Ok (), with_calendars g
                   (<[calendar_name calendar := calendar]> (_static_calendars g))).

Section get_calendar.

(** The exchange classes of the sibling modules, and the default
    bounds ([end_default] depends on the day the module is loaded). *)
Variables NYSEExchangeCalendar CMEExchangeCalendar BMFExchangeCalendar
          LSEExchangeCalendar TSXExchangeCalendar : ExchangeCalendarClass.
Variables start_default end_default : Z.

(** Calling the class with the keyword arguments: a new object,
    initialised by [__init__]. *)
Definition instantiate (cls : ExchangeCalendarClass)
    (start end_ : option Z) : M object := λ g,
  match __init__ cls (default start_default start) (default end_default end_) with
  | Ok cal =>
      (Ok {| obj_id := next_obj_id g; obj_calendar := cal |},
       {| _static_calendars := _static_calendars g;
          next_obj_id := S (next_obj_id g) |})
  | Err e => (Err e, g)
  end.

Definition build_and_register (cls : ExchangeCalendarClass)
    (start end_ : option Z) : M unit :=
  do! cal := instantiate cls start end_ in
  register_calendar cal false.

Definition get_calendar (name : string) (start end_ : option Z) : M object :=
  do! _u :=
    (λ g,
       if decide (_static_calendars g !! name = None) then
         (if decide (name = "NYSE") then
            build_and_register NYSEExchangeCalendar start end_
          else if decide (name = "CME") then
            build_and_register CMEExchangeCalendar start end_
          else if decide (name = "BMF") then
            build_and_register BMFExchangeCalendar start end_
          else if decide (name = "LSE") then
            build_and_register LSEExchangeCalendar start end_
          else if decide (name = "TSX") then
            build_and_register TSXExchangeCalendar start end_
          else raise (InvalidCalendarName name)) g
       else ret () g) in
  λ g,
    match _static_calendars g !! name with
    | Some calendar => (Ok calendar, g)
    | None => (Err (KeyError name), g)
    end.

Definition known_exchange (name : string) : Prop :=
  name ∈ ["NYSE"; "CME"; "BMF"; "LSE"; "TSX"].

End get_calendar.

(** ** Notions used in the statements *)

(** The special instants whose day is not a row of the index. *)
Definition off_calendar (midnight_utcs special : list Z) : list Z :=
  filter (λ s, normalize s ∉ midnight_utcs) special.

(** The instants that can end up as the open of day [d]: the nominal
    one, and the special opens that fall on [d]; likewise for the close. *)
Definition open_candidates (cls : ExchangeCalendarClass) (start end_ d : Z) : list Z :=
  day_at_time (open_time cls) (tz cls) (open_offset cls) d
  :: filter (λ s, normalize s = d) (_special_opens cls start end_).

Definition close_candidates (cls : ExchangeCalendarClass) (start end_ d : Z) : list Z :=
  day_at_time (close_time cls) (tz cls) (close_offset cls) d
  :: filter (λ s, normalize s = d) (_special_closes cls start end_).

Definition opens_precede_closes (cls : ExchangeCalendarClass) (start end_ : Z) : Prop :=
  Forall (λ d,
    Forall (λ o, Forall (λ c, o < c) (close_candidates cls start end_ d))
      (open_candidates cls start end_ d))
    (all_days_of cls start end_).

(** The minutes of one session: from the open, one minute apart, as
    many as [(close - open) / 1 minute + 1]. *)
Definition session_size (o c : Z) : Z := (c - o) `div` NANOS_IN_MINUTE + 1.

Definition session_minutes (o c : Z) : list Z :=
  (λ k : nat, o + Z.of_nat k * NANOS_IN_MINUTE)
    <$> seq 0 (Z.to_nat (session_size o c)).

Definition total_minutes (opens closes : list Z) : Z :=
  foldr Z.add 0 (zip_with session_size opens closes).

Definition int64 (z : Z) : Prop := - 2 ^ 63 ≤ z < 2 ^ 63.

(** A session that lasts a whole number of minutes, and on which the
    [int64] arithmetic of [all_trading_minutes] is exact. *)
Definition whole_minutes (o c : Z) : Prop :=
  o ≤ c ∧ (c - o) `mod` NANOS_IN_MINUTE = 0 ∧
  int64 o ∧ int64 (c - o) ∧ int64 (c + NANOS_IN_MINUTE).

Global Instance whole_minutes_dec o c : Decision (whole_minutes o c).
Proof. unfold whole_minutes, int64. apply _. Defined.

Global Instance int64_dec z : Decision (int64 z).
Proof. unfold int64. apply _. Defined.

(** ** A small exchange to run the definitions on

    Open 09:30, close 16:00, UTC, no holidays; the name and the special
    closes are left to each use.  1970-01-01, instant [0], is a Thursday. *)
Definition toy_exchange (nm : string) (closes_adhoc : list (time * list Z))
    : ExchangeCalendarClass :=
  {| name := nm;
     tz := UTC;
     native_timezone := UTC;
     open_time := mk_time 9 30 0;
     close_time := mk_time 16 0 0;
     open_offset := 0;
     close_offset := 0;
     holidays_calendar := [];
     holidays_adhoc := [];
     special_opens_calendars := [];
     special_opens_adhoc := [];
     special_closes_calendars := [];
     special_closes_adhoc := closes_adhoc;
     session_date := λ _ t, normalize t;
     is_open_on_day := λ sched d, existsb (Z.eqb d) (session_label <$> sched) |}.

(** A close at 13:00 on the Thursday. *)
Definition toy_early_close : ExchangeCalendarClass :=
  toy_exchange "TOY" [(mk_time 13 0 0, [0])].

(** A close at 09:00 on the Thursday, half an hour before the open. *)
Definition toy_close_before_open : ExchangeCalendarClass :=
  toy_exchange "TOY" [(mk_time 9 0 0, [0])].

(** A special close on Saturday 1970-01-03. *)
Definition toy_saturday_close : ExchangeCalendarClass :=
  toy_exchange "TOY" [(mk_time 13 0 0, [2 * NANOS_IN_DAY])].

(** A special close at 09:31:30 on the Thursday: a session of a minute
    and a half. *)
Definition toy_half_minute_close : ExchangeCalendarClass :=
  toy_exchange "TOY" [(mk_time 9 31 30, [0])].

(** The calendar of a toy exchange over Thursday 1970-01-01 and Friday
    1970-01-02, given the two closes and the early closes. *)
Definition toy_two_days (cls : ExchangeCalendarClass) (closes early : list Z)
    : ExchangeCalendar :=
  {| class_of := cls;
     day := {| cbd_holidays := []; cbd_calendar := [] |};
     _opens := [34200000000000; 120600000000000];
     _closes := closes;
     schedule :=
       zip_with (λ d oc, mk_session d oc.1 oc.2) [0; 86400000000000]
         (zip [34200000000000; 120600000000000] closes);
     first_trading_day := 0;
     last_trading_day := 86400000000000;
     early_closes := early |}.

Definition toy_calendar : ExchangeCalendar :=
  toy_two_days toy_early_close [46800000000000; 144000000000000] [0].

(** The calendar of the plain toy exchange over Thursday 1970-01-01 to
    Monday 1970-01-05: Thursday, Friday, Monday. *)
Definition toy_long_weekend : ExchangeCalendar :=
  {| class_of := toy_exchange "TOY" [];
     day := {| cbd_holidays := []; cbd_calendar := [] |};
     _opens := [34200000000000; 120600000000000; 379800000000000];
     _closes := [57600000000000; 144000000000000; 403200000000000];
     schedule := [mk_session 0 34200000000000 57600000000000;
                  mk_session 86400000000000 120600000000000 144000000000000;
                  mk_session 345600000000000 379800000000000 403200000000000];
     first_trading_day := 0;
     last_trading_day := 345600000000000;
     early_closes := [] |}.


(** The time of day of [t], in nanoseconds after midnight. *)
Definition nanos_of_time (t : time) : Z :=
  hour t * NANOS_IN_HOUR + minute t * NANOS_IN_MINUTE + second t * NANOS_IN_SECOND.

(** A session that does not close before it opens, and on which the
    [int64] arithmetic of [all_trading_minutes] is exact. *)
Definition session_fits (o c : Z) : Prop :=
  o ≤ c ∧ int64 o ∧ int64 (c - o) ∧ int64 (c + NANOS_IN_MINUTE).

Global Instance session_fits_dec o c : Decision (session_fits o c).
Proof. unfold session_fits. apply _. Defined.

(** Each session closes before the next one opens. *)
Definition sessions_in_order (opens closes : list Z) : Prop :=
  ∀ (i : nat) c o', closes !! i = Some c → opens !! S i = Some o' → c < o'.

(** * Properties *)

(** ** Index lookup *)

Lemma index_of_Some x l i : index_of x l = Some i → l !! i = Some x.
Proof.
  revert i. induction l as [|y l IH]; intros i; simpl; [done|].
  case_decide as Hxy.
  - intros [= <-]. by subst.
  - destruct (index_of x l) as [j|]; simpl; [|done].
    intros [= <-]. by apply IH.
Qed.

Lemma index_of_None x l : index_of x l = None ↔ x ∉ l.
Proof.
  induction l as [|y l IH]; simpl.
  - split; [intros _; apply not_elem_of_nil | done].
  - rewrite not_elem_of_cons. case_decide as Hxy.
    + split; [done | by intros []].
    + destruct (index_of x l) as [j|]; simpl.
      * split; [done|]. intros [_ Hx]. by apply IH in Hx.
      * split; [|done]. intros _. split; [done|]. by apply IH.
Qed.

Lemma index_of_elem x l : x ∈ l → ∃ i, index_of x l = Some i.
Proof.
  intros Hx. destruct (index_of x l) as [i|] eqn:E; [by exists i|].
  by apply index_of_None in E.
Qed.

(** ** The overlay *)

Lemma off_calendar_nil m sp :
  off_calendar m sp = [] ↔ ∀ s, s ∈ sp → normalize s ∈ m.
Proof.
  unfold off_calendar. split.
  - intros Hnil s Hs. destruct (decide (normalize s ∈ m)) as [|Hn]; [done|].
    assert (s ∈ filter (λ s, normalize s ∉ m) sp) as Hin
      by (by apply list_elem_of_filter).
    rewrite Hnil in Hin. by apply elem_of_nil in Hin.
  - intros Hall. induction sp as [|s sp IH]; [done|].
    rewrite filter_cons. case_decide as Hs.
    + exfalso. apply Hs, Hall. left.
    + apply IH. intros s' Hs'. apply Hall. by right.
Qed.

Lemma bad_dates_of_indexer m sp :
  bad_dates_of (get_indexer m (normalize <$> sp)) sp = off_calendar m sp.
Proof.
  unfold bad_dates_of, off_calendar, get_indexer.
  induction sp as [|s sp IH]; [done|].
  rewrite filter_cons. cbn [fmap list_fmap zip zip_with mbind list_bind].
  change (list_bind ?f ?l) with (l ≫= f). rewrite IH.
  destruct (index_of (normalize s) m) as [i|] eqn:E; simpl.
  - apply index_of_Some, list_elem_of_lookup_2 in E.
    case_decide; [lia|]. rewrite decide_False; [done|]. by intros Hn.
  - apply index_of_None in E. by rewrite decide_True.
Qed.

Lemma indexer_missing m sp :
  -1 ∈ get_indexer m (normalize <$> sp) ↔ off_calendar m sp ≠ [].
Proof.
  rewrite off_calendar_nil. unfold get_indexer. rewrite <-list_fmap_compose.
  rewrite list_elem_of_fmap. split.
  - intros (s & Hs & Hin) Hall. simpl in Hs.
    destruct (index_of_elem _ _ (Hall s Hin)) as [i Hi].
    rewrite Hi in Hs. lia.
  - intros Hnall.
    destruct (decide (Exists (λ s, normalize s ∉ m) sp)) as [Hex|Hnex].
    + apply Exists_exists in Hex as (s & Hin & Hs). exists s. split; [|done].
      simpl. apply index_of_None in Hs. by rewrite Hs.
    + exfalso. apply Hnall. intros s Hs.
      destruct (decide (normalize s ∈ m)) as [|Hn]; [done|].
      exfalso. apply Hnex, Exists_exists. eauto.
Qed.

(** What the overlay returns, when the two sequences are aligned. *)
Lemma overwrite_special_dates_spec m oc sp :
  length m = length oc →
  _overwrite_special_dates m oc sp =
    if decide (off_calendar m sp = [])
    then Ok (fancy_assign oc (get_indexer m (normalize <$> sp)) sp)
    else Err (SpecialDatesNotTradingDays (off_calendar m sp)).
Proof.
  intros Hlen. unfold _overwrite_special_dates.
  case_decide as Hsp.
  - apply nil_length_inv in Hsp. subst sp. by rewrite decide_True.
  - rewrite decide_False by (intros ?; congruence).
    rewrite bad_dates_of_indexer.
    destruct (decide (off_calendar m sp = [])) as [Hnil|Hnnil].
    + rewrite decide_False; [done|]. rewrite indexer_missing. by intros Hn.
    + rewrite decide_True; [done|]. by rewrite indexer_missing.
Qed.

Lemma fancy_assign_length m sp oc :
  length (fancy_assign oc (get_indexer m (normalize <$> sp)) sp) = length oc.
Proof.
  revert oc. induction sp as [|s sp IH]; intros oc; [done|].
  unfold fancy_assign in *. simpl. rewrite IH. apply length_insert.
Qed.

(** A row untouched by every special instant keeps its value. *)
Lemma fancy_assign_frame m sp oc i :
  (∀ s, s ∈ sp → normalize s ∈ m) →
  (∀ s, s ∈ sp → m !! i ≠ Some (normalize s)) →
  fancy_assign oc (get_indexer m (normalize <$> sp)) sp !! i = oc !! i.
Proof.
  revert oc. induction sp as [|s sp IH]; intros oc Hin Hne; [done|].
  unfold fancy_assign in *. simpl.
  rewrite IH; [|intros; apply Hin; by right|intros; apply Hne; by right].
  destruct (index_of_elem _ _ (Hin s (list_elem_of_here _ _))) as [j Hj].
  rewrite Hj, Nat2Z.id. apply list_lookup_insert_ne.
  intros ->. apply index_of_Some in Hj. by apply (Hne s (list_elem_of_here _ _)).
Qed.

(** Every value of the result is the old one of its row, or a special
    instant of that row's day. *)
Lemma fancy_assign_provenance m sp oc i v :
  (∀ s, s ∈ sp → normalize s ∈ m) →
  fancy_assign oc (get_indexer m (normalize <$> sp)) sp !! i = Some v →
  oc !! i = Some v ∨ (v ∈ sp ∧ m !! i = Some (normalize v)).
Proof.
  revert oc. induction sp as [|s sp IH]; intros oc Hin Hv; [by left|].
  unfold fancy_assign in *. simpl in Hv.
  destruct (index_of_elem _ _ (Hin s (list_elem_of_here _ _))) as [j Hj].
  rewrite Hj, Nat2Z.id in Hv.
  apply IH in Hv; [|by intros; apply Hin; right].
  destruct Hv as [Hv|[Hv Hm]].
  - apply list_lookup_insert_Some in Hv as [(-> & -> & _)|[_ Hv]]; [|by left].
    right. split; [left|]. by apply index_of_Some.
  - right. split; [by right|done].
Qed.

(** A successful overlay leaves alone every row on whose day no special
    instant falls. *)
Lemma overwrite_special_dates_frame m oc sp oc' i d :
  _overwrite_special_dates m oc sp = Ok oc' →
  m !! i = Some d →
  (∀ s, s ∈ sp → normalize s ≠ d) →
  oc' !! i = oc !! i.
Proof.
  intros Hok Hd Hfree.
  destruct (decide (length m = length oc)) as [Hlen|Hlen].
  - rewrite overwrite_special_dates_spec in Hok by done.
    case_decide as Hoff; [|done]. injection Hok as <-.
    rewrite off_calendar_nil in Hoff.
    apply fancy_assign_frame; [done|].
    intros s Hs. rewrite Hd. intros [= Heq]. by apply (Hfree s).
  - unfold _overwrite_special_dates in Hok.
    case_decide; [by injection Hok as <-|].
    by rewrite decide_True in Hok.
Qed.

(** ** Construction *)

Lemma DataFrame_lookup days opens closes i row :
  DataFrame days opens closes !! i = Some row ↔
  days !! i = Some (session_label row) ∧
  opens !! i = Some (market_open row) ∧
  closes !! i = Some (market_close row).
Proof.
  unfold DataFrame. rewrite lookup_zip_with_Some. split.
  - intros (d & [o c] & -> & Hd & Hoc).
    apply lookup_zip_with_Some in Hoc as (o' & c' & [= -> ->] & Ho & Hc).
    by simpl.
  - intros (Hd & Ho & Hc). destruct row as [d o c]. simpl in *.
    exists d, (o, c). split_and!; [done..|].
    apply lookup_zip_with_Some. by exists o, c.
Qed.

(** What a successful [__init__] has computed. *)
Lemma init_Ok_inv cls start end_ cal :
  __init__ cls start end_ = Ok cal →
  let days := all_days_of cls start end_ in
  let so := _special_opens cls start end_ in
  let sc := _special_closes cls start end_ in
  off_calendar days so = [] ∧ off_calendar days sc = [] ∧
  _opens cal =
    fancy_assign (days_at_time days (open_time cls) (tz cls) (open_offset cls))
      (get_indexer days (normalize <$> so)) so ∧
  _closes cal =
    fancy_assign (days_at_time days (close_time cls) (tz cls) (close_offset cls))
      (get_indexer days (normalize <$> sc)) sc ∧
  schedule cal = DataFrame days (_opens cal) (_closes cal) ∧
  head days = Some (first_trading_day cal) ∧
  last days = Some (last_trading_day cal) ∧
  class_of cal = cls.
Proof.
  unfold __init__. fold (all_days_of cls start end_).
  set (days := all_days_of cls start end_).
  set (so := _special_opens cls start end_).
  set (sc := _special_closes cls start end_).
  rewrite !overwrite_special_dates_spec
    by (unfold days_at_time; by rewrite length_fmap).
  destruct (decide (off_calendar days so = [])) as [Hso|]; [|done].
  destruct (decide (off_calendar days sc = [])) as [Hsc|]; [|done].
  unfold first_of, last_of. simpl.
  destruct (head days) as [f|]; [|done].
  destruct (last days) as [l|]; [|done].
  simpl. intros [= <-]. by simpl.
Qed.

Lemma overlay_candidate days t tz off sp i d v :
  (∀ s, s ∈ sp → normalize s ∈ days) →
  days !! i = Some d →
  fancy_assign (days_at_time days t tz off)
    (get_indexer days (normalize <$> sp)) sp !! i = Some v →
  v ∈ day_at_time t tz off d :: filter (λ s, normalize s = d) sp.
Proof.
  intros Hin Hd Hv.
  apply fancy_assign_provenance in Hv as [Hv|[Hv Hm]]; [| |done].
  - unfold days_at_time in Hv. rewrite list_lookup_fmap, Hd in Hv.
    injection Hv as <-. left.
  - right. apply list_elem_of_filter. split; [congruence|done].
Qed.

(** ** The toy calendars

    The literal calendars are what [__init__] computes. *)

Example toy_calendar_constructed :
  __init__ toy_early_close 0 NANOS_IN_DAY = Ok toy_calendar.
Proof. reflexivity. Qed.

Example toy_long_weekend_constructed :
  __init__ (toy_exchange "TOY" []) 0 (4 * NANOS_IN_DAY) = Ok toy_long_weekend.
Proof. reflexivity. Qed.

(** ** C1: opens and closes of a session *)

(** C1, as stated, fails: [__init__] never compares an open with a
    close.  With a special close at 09:00 on a day that opens at 09:30,
    the row of that day has its close before its open. *)
Lemma special_close_before_open :
  schedule <$> __init__ toy_close_before_open 0 NANOS_IN_DAY
    = Ok [mk_session 0 34200000000000 32400000000000;
          mk_session 86400000000000 120600000000000 144000000000000] ∧
  ¬ (market_open (mk_session 0 34200000000000 32400000000000)
     < market_close (mk_session 0 34200000000000 32400000000000)).
Proof. split; [vm_compute; reflexivity | simpl; lia]. Qed.

(** C1 (amended): every row of the session table of a constructed
    calendar has [market_open < market_close], rows overwritten by a
    special open or close included, provided that on every business day
    each instant that can become its open (the nominal open, a special
    open of that day) precedes each instant that can become its close. *)
Theorem session_open_before_close cls start end_ cal :
  __init__ cls start end_ = Ok cal →
  opens_precede_closes cls start end_ →
  ∀ row, row ∈ schedule cal → market_open row < market_close row.
Proof.
  intros Hinit Hord row Hrow.
  destruct (init_Ok_inv _ _ _ _ Hinit) as (Hso & Hsc & Ho & Hc & Hs & _).
  apply list_elem_of_lookup in Hrow as [i Hi].
  rewrite Hs in Hi. apply DataFrame_lookup in Hi as (Hd & Hmo & Hmc).
  rewrite Ho in Hmo. rewrite Hc in Hmc.
  rewrite off_calendar_nil in Hso, Hsc.
  eapply overlay_candidate in Hmo; [|done..].
  eapply overlay_candidate in Hmc; [|done..].
  unfold opens_precede_closes in Hord.
  rewrite Forall_forall in Hord.
  specialize (Hord _ (list_elem_of_lookup_2 _ _ _ Hd)).
  rewrite Forall_forall in Hord. specialize (Hord _ Hmo).
  rewrite Forall_forall in Hord. by apply Hord.
Qed.

Lemma session_open_before_close_witness :
  Forall (λ row, market_open row < market_close row) (schedule toy_calendar).
Proof.
  apply Forall_forall.
  apply (session_open_before_close toy_early_close 0 NANOS_IN_DAY).
  - reflexivity.
  - unfold opens_precede_closes. apply (bool_decide_unpack _).
    vm_compute. exact I.
Defined.

(** ** C3: a special instant off the calendar *)

(** C3: when the day of some special open or special close is not a
    business day, [__init__] raises the [ValueError] that lists the
    offending instants (those of the opens if any, else those of the
    closes), and so returns no calendar. *)
Theorem special_off_calendar_aborts cls start end_ :
  let days := all_days_of cls start end_ in
  let so := _special_opens cls start end_ in
  let sc := _special_closes cls start end_ in
  (∃ s, (s ∈ so ∨ s ∈ sc) ∧ normalize s ∉ days) →
  ∃ bad,
    __init__ cls start end_ = Err (SpecialDatesNotTradingDays bad) ∧
    bad ≠ [] ∧
    (∀ b, b ∈ bad → (b ∈ so ∨ b ∈ sc) ∧ normalize b ∉ days) ∧
    (bad = off_calendar days so ∨
     off_calendar days so = [] ∧ bad = off_calendar days sc).
Proof.
  intros days so sc (s & Hs & Hoff).
  unfold __init__. fold (all_days_of cls start end_).
  fold days so sc.
  rewrite !overwrite_special_dates_spec
    by (unfold days_at_time; by rewrite length_fmap).
  destruct (decide (off_calendar days so = [])) as [Hso|Hso].
  - simpl. destruct (decide (off_calendar days sc = [])) as [Hsc|Hsc].
    + exfalso. destruct Hs as [Hs|Hs].
      * by apply (proj1 (off_calendar_nil _ _) Hso) in Hs.
      * by apply (proj1 (off_calendar_nil _ _) Hsc) in Hs.
    + exists (off_calendar days sc). split_and!; [done..| |by right].
      intros b [Hb ?]%list_elem_of_filter. split; [by right|done].
  - exists (off_calendar days so). split_and!; [done..| |by left].
    intros b [Hb ?]%list_elem_of_filter. split; [by left|done].
Qed.

Lemma special_off_calendar_aborts_witness :
  ∃ bad,
    __init__ toy_saturday_close 0 (4 * NANOS_IN_DAY)
      = Err (SpecialDatesNotTradingDays bad) ∧
    bad = [219600000000000].
Proof.
  destruct (special_off_calendar_aborts toy_saturday_close 0 (4 * NANOS_IN_DAY))
    as (bad & Hinit & _).
  - exists 219600000000000. split.
    + right. vm_compute. apply list_elem_of_here.
    + apply (bool_decide_unpack _). vm_compute. exact I.
  - exists bad. split; [exact Hinit|].
    vm_compute in Hinit. by injection Hinit as <-.
Defined.

(** ** C6: misaligned sequences *)

(** C6: with at least one special instant and an open (or close)
    sequence whose length differs from that of the business days, the
    overlay raises, and whatever construction would do next is not
    done.  The exception is the [TypeError] of the message's [%]
    formatting, which is given one argument for two fields. *)
Theorem misaligned_overlay_aborts {A} m oc sp (rest : list Z → result A) :
  sp ≠ [] →
  length m ≠ length oc →
  _overwrite_special_dates m oc sp = Err NotEnoughFormatArguments ∧
  (oc' ← _overwrite_special_dates m oc sp; rest oc') = Err NotEnoughFormatArguments.
Proof.
  intros Hsp Hlen. unfold _overwrite_special_dates.
  rewrite decide_False by (by intros ->%nil_length_inv).
  by rewrite decide_True.
Qed.

Lemma misaligned_overlay_aborts_witness :
  _overwrite_special_dates [0; NANOS_IN_DAY] [34200000000000] [46800000000000]
    = Err NotEnoughFormatArguments.
Proof.
  apply (misaligned_overlay_aborts (A := unit)
           [0; NANOS_IN_DAY] [34200000000000] [46800000000000] (λ _, Ok ()));
    [discriminate | simpl; lia].
Defined.

(** ** C9: the overlay leaves the other rows alone *)

(** C9: an empty sequence of special instants changes nothing; a
    successful overlay changes no position whose business day is the
    day of no special instant; and so, in a constructed calendar, a row
    on whose day no special open (no special close) falls has the
    nominal open (close) that [days_at_time] computes from [open_time]
    ([close_time]). *)
Theorem overlay_frame :
  (∀ m oc, _overwrite_special_dates m oc [] = Ok oc) ∧
  (∀ m oc sp oc' (i : nat) d,
     _overwrite_special_dates m oc sp = Ok oc' →
     m !! i = Some d →
     (∀ s, s ∈ sp → normalize s ≠ d) →
     oc' !! i = oc !! i) ∧
  (∀ cls start end_ cal,
     __init__ cls start end_ = Ok cal →
     ∀ row, row ∈ schedule cal →
       ((∀ s, s ∈ _special_opens cls start end_ → normalize s ≠ session_label row) →
        market_open row =
          day_at_time (open_time cls) (tz cls) (open_offset cls) (session_label row)) ∧
       ((∀ s, s ∈ _special_closes cls start end_ → normalize s ≠ session_label row) →
        market_close row =
          day_at_time (close_time cls) (tz cls) (close_offset cls) (session_label row))).
Proof.
  split_and!; [done|apply overwrite_special_dates_frame|].
  intros cls start end_ cal Hinit row Hrow.
  destruct (init_Ok_inv _ _ _ _ Hinit) as (Hso & Hsc & Ho & Hc & Hs & _).
  apply list_elem_of_lookup in Hrow as [i Hi].
  rewrite Hs in Hi. apply DataFrame_lookup in Hi as (Hd & Hmo & Hmc).
  rewrite Ho in Hmo. rewrite Hc in Hmc.
  rewrite off_calendar_nil in Hso, Hsc.
  split; intros Hfree.
  - rewrite fancy_assign_frame in Hmo; [|done|].
    + unfold days_at_time in Hmo. rewrite list_lookup_fmap, Hd in Hmo.
      by injection Hmo as <-.
    + intros s Hsin. rewrite Hd. intros [= Heq]. by apply (Hfree s).
  - rewrite fancy_assign_frame in Hmc; [|done|].
    + unfold days_at_time in Hmc. rewrite list_lookup_fmap, Hd in Hmc.
      by injection Hmc as <-.
    + intros s Hsin. rewrite Hd. intros [= Heq]. by apply (Hfree s).
Qed.

Lemma overlay_frame_witness :
  market_close (mk_session 86400000000000 120600000000000 144000000000000)
    = day_at_time (mk_time 16 0 0) UTC 0 86400000000000.
Proof.
  refine (proj2 (proj2 (proj2 overlay_frame) toy_early_close 0 NANOS_IN_DAY
            toy_calendar _
            (mk_session 86400000000000 120600000000000 144000000000000) _) _).
  - reflexivity.
  - apply list_elem_of_further, list_elem_of_here.
  - intros s Hs. vm_compute in Hs.
    apply list_elem_of_singleton in Hs. subst s. vm_compute. discriminate.
Defined.

(** ** The registry *)

Section registry_properties.

Variables NYSEExchangeCalendar CMEExchangeCalendar BMFExchangeCalendar
          LSEExchangeCalendar TSXExchangeCalendar : ExchangeCalendarClass.
Variables start_default end_default : Z.

(** A registered name is answered from the dictionary, which stays as
    it is. *)
Lemma get_calendar_registered name start end_ g calendar :
  _static_calendars g !! name = Some calendar →
  get_calendar NYSEExchangeCalendar CMEExchangeCalendar BMFExchangeCalendar
    LSEExchangeCalendar TSXExchangeCalendar start_default end_default
    name start end_ g = (Ok calendar, g).
Proof.
  intros Hreg. unfold get_calendar, bind, ret.
  rewrite decide_False by congruence. by rewrite Hreg.
Qed.


Lemma get_calendar_unknown name start end_ g :
  _static_calendars g !! name = None →
  ¬ known_exchange name →
  get_calendar NYSEExchangeCalendar CMEExchangeCalendar BMFExchangeCalendar
    LSEExchangeCalendar TSXExchangeCalendar start_default end_default
    name start end_ g = (Err (InvalidCalendarName name), g).
Proof.
  intros Hnone Hunk. unfold get_calendar, bind, raise.
  rewrite decide_True by done.
  unfold known_exchange in Hunk.
  repeat (case_decide; [subst name; exfalso; apply Hunk; set_solver|]).
  done.
Qed.

(** The lazy path: a known exchange, not yet registered, whose class
    constructs and carries the name it is asked under, is built once,
    registered and returned. *)
Lemma get_calendar_builds nm cls start end_ g cal :
  _static_calendars g !! nm = None →
  (nm, cls) ∈ [("NYSE", NYSEExchangeCalendar); ("CME", CMEExchangeCalendar);
                 ("BMF", BMFExchangeCalendar); ("LSE", LSEExchangeCalendar);
                 ("TSX", TSXExchangeCalendar)] →
  name cls = nm →
  __init__ cls (default start_default start) (default end_default end_) = Ok cal →
  let calendar := {| obj_id := next_obj_id g; obj_calendar := cal |} in
  get_calendar NYSEExchangeCalendar CMEExchangeCalendar BMFExchangeCalendar
    LSEExchangeCalendar TSXExchangeCalendar start_default end_default
    nm start end_ g =
    (Ok calendar,
     {| _static_calendars := <[nm := calendar]> (_static_calendars g);
        next_obj_id := S (next_obj_id g) |}).
Proof.
  intros Hnone Hcls Hname Hinit calendar.
  assert (class_of cal = cls) as Hclass
    by (by destruct (init_Ok_inv _ _ _ _ Hinit) as (_&_&_&_&_&_&_&?)).
  unfold get_calendar. unfold bind at 1.
  rewrite decide_True by done.
  repeat (apply elem_of_cons in Hcls as [[= -> ->]|Hcls];
    [ repeat (rewrite decide_False by discriminate);
      rewrite decide_True by done;
      unfold build_and_register, instantiate, bind, register_calendar, ret;
      rewrite Hinit; simpl; unfold calendar_name; simpl;
      rewrite Hclass, Hname; unfold bind; simpl;
      rewrite decide_False by (rewrite Hnone; by intros [? ?]);
      simpl; by rewrite lookup_insert_eq
    |]).
  by apply elem_of_nil in Hcls.
Qed.

(** ** C7: registering under a taken name *)

(** C7: when a calendar of the same name is registered,
    [register_calendar] without [force] raises [CalendarNameCollision]
    and leaves the registry as it was; with [force] it succeeds and the
    name then maps to the new calendar. *)
Theorem register_calendar_collision calendar g old :
  _static_calendars g !! calendar_name calendar = Some old →
  register_calendar calendar false g
    = (Err (CalendarNameCollision (calendar_name calendar)), g) ∧
  register_calendar calendar true g
    = (Ok (), with_calendars g
                (<[calendar_name calendar := calendar]> (_static_calendars g))).
Proof.
  intros Hold. unfold register_calendar, bind, ret, deregister_calendar.
  split.
  - by rewrite decide_True by (by rewrite Hold).
  - simpl. rewrite decide_False
      by (rewrite lookup_delete_eq; by intros [? ?]).
    unfold with_calendars. simpl. by rewrite insert_delete_eq.
Qed.

(** ** C8: unknown names, and asking twice *)


(** ** C10: the bounds of an already registered calendar *)

(** C10: for a registered name, [get_calendar] returns the registered
    object whatever [start] and [end] are, and leaves the registry and
    the object counter untouched: nothing is constructed. *)
Theorem get_calendar_ignores_bounds name g calendar :
  _static_calendars g !! name = Some calendar →
  ∀ start end_ start' end',
    get_calendar NYSEExchangeCalendar CMEExchangeCalendar BMFExchangeCalendar
    LSEExchangeCalendar TSXExchangeCalendar start_default end_default
    name start end_ g = (Ok calendar, g) ∧
    get_calendar NYSEExchangeCalendar CMEExchangeCalendar BMFExchangeCalendar
    LSEExchangeCalendar TSXExchangeCalendar start_default end_default
    name start' end' g = (Ok calendar, g).
Proof.
  intros Hreg start end_ start' end'.
  split; by apply get_calendar_registered.
Qed.

End registry_properties.

Lemma register_calendar_collision_witness :
  let g := {| _static_calendars := {[ "TOY" := mk_object 0 toy_calendar ]};
              next_obj_id := 2 |} in
  register_calendar (mk_object 1 toy_calendar) false g
    = (Err (CalendarNameCollision "TOY"), g) ∧
  register_calendar (mk_object 1 toy_calendar) true g
    = (Ok (), with_calendars g
                (<["TOY" := mk_object 1 toy_calendar]> (_static_calendars g))).
Proof.
  intros g.
  apply (register_calendar_collision (mk_object 1 toy_calendar) g
           (mk_object 0 toy_calendar)).
  apply lookup_singleton_eq.
Defined.


Lemma get_calendar_ignores_bounds_witness :
  let get :=
    get_calendar (toy_exchange "NYSE" []) (toy_exchange "CME" [])
      (toy_exchange "BMF" []) (toy_exchange "LSE" []) (toy_exchange "TSX" [])
      0 NANOS_IN_DAY in
  let g := {| _static_calendars := {[ "TOY" := mk_object 0 toy_calendar ]};
              next_obj_id := 1 |} in
  get "TOY" None None g = (Ok (mk_object 0 toy_calendar), g) ∧
  get "TOY" (Some NANOS_IN_DAY) (Some (9 * NANOS_IN_DAY)) g
    = (Ok (mk_object 0 toy_calendar), g).
Proof.
  intros get g.
  apply (get_calendar_ignores_bounds (toy_exchange "NYSE" [])
           (toy_exchange "CME" []) (toy_exchange "BMF" [])
           (toy_exchange "LSE" []) (toy_exchange "TSX" []) 0 NANOS_IN_DAY
           "TOY" g (mk_object 0 toy_calendar)).
  apply lookup_singleton_eq.
Defined.

(** ** C4: the special-date resolver *)







Lemma StronglySorted_lt_filter (P : Z → Prop) `{!∀ x, Decision (P x)} l :
  StronglySorted Z.lt l → StronglySorted Z.lt (filter P l).
Proof.
  induction 1 as [|x l Hl IH Hx]; [constructor|].
  rewrite filter_cons. case_decide; [|done].
  constructor; [done|].
  apply Forall_forall. intros y [_ Hy]%list_elem_of_filter.
  rewrite Forall_forall in Hx. by apply Hx.
Qed.

Lemma StronglySorted_lt_NoDup l : StronglySorted Z.lt l → NoDup l.
Proof.
  induction 1 as [|x l Hl IH Hx]; constructor; [|done].
  intros Hin. rewrite Forall_forall in Hx. specialize (Hx _ Hin). lia.
Qed.

(** Two ad-hoc lists that overlap and are out of order, over the first
    ten days of 1970: the 2nd, 5th and 7th at 13:00, in order, once. *)
Example special_dates_example :
  _special_dates (toy_exchange "TOY" []) []
    [(mk_time 13 0 0, [6 * NANOS_IN_DAY; NANOS_IN_DAY; 20 * NANOS_IN_DAY]);
     (mk_time 13 0 0, [4 * NANOS_IN_DAY; NANOS_IN_DAY])]
    0 (9 * NANOS_IN_DAY)
  = [133200000000000; 392400000000000; 565200000000000].
Proof. vm_compute. reflexivity. Qed.


(** ** C5: previous, then next *)

Section navigation.

Variable is_scheduled_day_hook : Z → bool.

Lemma NANOS_IN_DAY_pos : 0 < NANOS_IN_DAY.
Proof. reflexivity. Qed.

(** Walking back reaches the nearest scheduled day, if one lies within
    [fuel] days and not before the first trading day. *)
Lemma previous_scheduled_from_nearest fuel dt first (n : nat) :
  (1 ≤ n ≤ fuel)%nat →
  is_scheduled_day_hook (dt - Z.of_nat n * NANOS_IN_DAY) = true →
  first ≤ dt - Z.of_nat n * NANOS_IN_DAY →
  ∃ k : nat,
    (1 ≤ k ≤ n)%nat ∧
    previous_scheduled_from fuel dt first is_scheduled_day_hook
      = Ok (dt - Z.of_nat k * NANOS_IN_DAY) ∧
    is_scheduled_day_hook (dt - Z.of_nat k * NANOS_IN_DAY) = true ∧
    ∀ j : nat, (1 ≤ j < k)%nat →
      is_scheduled_day_hook (dt - Z.of_nat j * NANOS_IN_DAY) = false.
Proof.
  pose proof NANOS_IN_DAY_pos as Hpos.
  revert dt n. induction fuel as [|fuel IH]; intros dt n Hn Hhook Hfirst; [lia|].
  simpl. rewrite (proj2 (Z.ltb_ge _ _)) by nia.
  destruct (is_scheduled_day_hook (dt - NANOS_IN_DAY)) eqn:Hd.
  - exists 1%nat. split; [lia|]. split; [|split].
    + f_equal; lia.
    + rewrite <-Hd. f_equal; lia.
    + intros j Hj. lia.
  - destruct (decide (n = 1%nat)) as [->|Hn1].
    { assert (dt - Z.of_nat 1 * NANOS_IN_DAY = dt - NANOS_IN_DAY) as E by lia.
      rewrite E in Hhook. congruence. }
    destruct (IH (dt - NANOS_IN_DAY) (n - 1)%nat) as (k & Hk & Hres & Hkhook & Hmin).
    + lia.
    + rewrite <-Hhook. f_equal; lia.
    + lia.
    + exists (S k). split; [lia|]. split; [|split].
      * rewrite Hres. f_equal; lia.
      * rewrite <-Hkhook. f_equal; lia.
      * intros j Hj. destruct (decide (j = 1%nat)) as [->|Hj1].
        { rewrite <-Hd. f_equal; lia. }
        rewrite <-(Hmin (j - 1)%nat) by lia. f_equal; lia.
Qed.

(** Walking forward over unscheduled days stops at the first
    scheduled one. *)
Lemma next_scheduled_from_first fuel dt last (k : nat) :
  (1 ≤ k ≤ fuel)%nat →
  (∀ j : nat, (1 ≤ j < k)%nat →
     is_scheduled_day_hook (dt + Z.of_nat j * NANOS_IN_DAY) = false) →
  is_scheduled_day_hook (dt + Z.of_nat k * NANOS_IN_DAY) = true →
  dt + Z.of_nat k * NANOS_IN_DAY ≤ last →
  next_scheduled_from fuel dt last is_scheduled_day_hook
    = Ok (dt + Z.of_nat k * NANOS_IN_DAY).
Proof.
  pose proof NANOS_IN_DAY_pos as Hpos.
  revert dt k. induction fuel as [|fuel IH]; intros dt k Hk Hskip Hhook Hlast; [lia|].
  simpl. rewrite (proj2 (Z.ltb_ge _ _)) by nia.
  destruct (decide (k = 1%nat)) as [->|Hk1].
  - replace (dt + NANOS_IN_DAY) with (dt + Z.of_nat 1 * NANOS_IN_DAY) by lia.
    by rewrite Hhook.
  - pose proof (Hskip 1%nat ltac:(lia)) as H1.
    replace (dt + Z.of_nat 1 * NANOS_IN_DAY) with (dt + NANOS_IN_DAY) in H1 by lia.
    rewrite H1.
    rewrite (IH (dt + NANOS_IN_DAY) (k - 1)%nat).
    + f_equal; lia.
    + lia.
    + intros j Hj. rewrite <-(Hskip (S j)) by lia. f_equal; lia.
    + rewrite <-Hhook. f_equal; lia.
    + lia.
Qed.

Lemma scheduled_day_round_trip first last d :
  is_scheduled_day_hook d = true →
  is_scheduled_day_hook first = true →
  (d - first) `mod` NANOS_IN_DAY = 0 →
  first < d < last →
  previous_scheduled_day d first is_scheduled_day_hook
    ≫= (λ p, next_scheduled_day p last is_scheduled_day_hook) = Ok d.
Proof.
  pose proof NANOS_IN_DAY_pos as Hpos.
  intros Hd Hfirst Hmod Hrange.
  unfold previous_scheduled_day.
  rewrite (proj2 (Z.leb_gt _ _)) by lia.
  set (n := Z.to_nat ((d - first) `div` NANOS_IN_DAY)).
  assert (d - first = NANOS_IN_DAY * ((d - first) `div` NANOS_IN_DAY)) as Hdiv.
  { rewrite (Z.div_mod (d - first) NANOS_IN_DAY) at 1 by lia. lia. }
  assert (0 < (d - first) `div` NANOS_IN_DAY) as Hq by nia.
  assert (d - Z.of_nat n * NANOS_IN_DAY = first) as Hn
    by (unfold n; rewrite Z2Nat.id by lia; lia).
  destruct (previous_scheduled_from_nearest n d first n)
    as (k & Hk & Hres & Hkhook & Hmin).
  { unfold n. lia. }
  { by rewrite Hn. }
  { lia. }
  rewrite Hres. simpl. unfold next_scheduled_day.
  set (p := d - Z.of_nat k * NANOS_IN_DAY) in *.
  assert (first ≤ p) as Hp by (unfold p; nia).
  rewrite (proj2 (Z.leb_gt _ _)) by (unfold p; nia).
  rewrite (next_scheduled_from_first _ p last k).
  - f_equal. unfold p. lia.
  - split; [lia|].
    apply Nat2Z.inj_le. rewrite Z2Nat.id.
    + apply Z.div_le_lower_bound; [lia|]. unfold p. nia.
    + apply Z.div_pos; [unfold p; nia | lia].
  - intros j Hj. rewrite <-(Hmin (k - j)%nat) by lia.
    f_equal. unfold p. lia.
  - rewrite <-Hd. f_equal. unfold p. lia.
  - unfold p. lia.
Qed.

End navigation.

(** C5, as stated for every calendar day, fails: Saturday 1970-01-03
    lies strictly between the first and last sessions of the toy
    calendar of 1970-01-01 .. 1970-01-05, its previous trading day is
    the Friday, and the next trading day of the Friday is the Monday. *)
Lemma round_trip_skips_to_monday :
  first_trading_day toy_long_weekend < 2 * NANOS_IN_DAY
    < last_trading_day toy_long_weekend ∧
  previous_trading_day toy_long_weekend (2 * NANOS_IN_DAY) = Ok NANOS_IN_DAY ∧
  previous_trading_day toy_long_weekend (2 * NANOS_IN_DAY)
    ≫= next_trading_day toy_long_weekend = Ok (4 * NANOS_IN_DAY) ∧
  4 * NANOS_IN_DAY ≠ 2 * NANOS_IN_DAY.
Proof.
  split_and!; [done | done | vm_compute; reflexivity
              | vm_compute; reflexivity | discriminate].
Qed.

(** C5 (amended): in a calendar whose first trading day is a business
    day, for every business day [d] (a day on which [is_open_on_day]
    holds, a whole number of days after the first trading day) strictly
    between the first and last trading days,
    [next_trading_day (previous_trading_day d) = d]. *)
Theorem next_previous_trading_day_round_trip (self : ExchangeCalendar) (d : Z) :
  is_open_on_day (class_of self) (schedule self) d = true →
  is_open_on_day (class_of self) (schedule self) (first_trading_day self) = true →
  (d - first_trading_day self) `mod` NANOS_IN_DAY = 0 →
  first_trading_day self < d < last_trading_day self →
  previous_trading_day self d ≫= next_trading_day self = Ok d.
Proof.
  intros. unfold previous_trading_day, next_trading_day.
  by apply scheduled_day_round_trip.
Qed.

Lemma next_previous_trading_day_round_trip_witness :
  previous_trading_day toy_long_weekend NANOS_IN_DAY
    ≫= next_trading_day toy_long_weekend = Ok NANOS_IN_DAY.
Proof.
  apply next_previous_trading_day_round_trip;
    [vm_compute; reflexivity | vm_compute; reflexivity
    | vm_compute; reflexivity | vm_compute; split; reflexivity].
Defined.

(** ** C2: the minute grid *)

Lemma wrap64_int64 z : int64 z → wrap64 z = z.
Proof.
  unfold int64, wrap64. intros Hz.
  rewrite Z.mod_small by lia. lia.
Qed.

Lemma NANOS_IN_MINUTE_pos : 0 < NANOS_IN_MINUTE.
Proof. reflexivity. Qed.

Lemma session_size_pos o c : o ≤ c → 0 < session_size o c.
Proof.
  intros Hoc. unfold session_size.
  pose proof NANOS_IN_MINUTE_pos.
  assert (0 ≤ (c - o) `div` NANOS_IN_MINUTE) by (apply Z.div_pos; lia). lia.
Qed.

Lemma session_size_int64 o c : whole_minutes o c → int64 (session_size o c).
Proof.
  intros (Hoc & _ & _ & [_ Hd] & _).
  pose proof (session_size_pos o c Hoc).
  pose proof NANOS_IN_MINUTE_pos.
  unfold int64, session_size in *. split; [lia|].
  assert ((c - o) `div` NANOS_IN_MINUTE < c - o \/ c - o = 0) as [|E].
  { destruct (decide (c - o = 0)); [by right|left].
    apply Z.div_lt; [lia|reflexivity]. }
  - lia.
  - rewrite E. reflexivity.
Qed.

Lemma session_minutes_length o c :
  o ≤ c → Z.of_nat (length (session_minutes o c)) = session_size o c.
Proof.
  intros Hoc. unfold session_minutes.
  rewrite length_fmap, length_seq, Z2Nat.id; [done|].
  pose proof (session_size_pos o c Hoc). lia.
Qed.

Lemma session_minutes_lookup o c (k : nat) :
  session_minutes o c !! k =
    if decide (Z.of_nat k < session_size o c)
    then Some (o + Z.of_nat k * NANOS_IN_MINUTE) else None.
Proof.
  unfold session_minutes. rewrite list_lookup_fmap.
  case_decide as Hk.
  - rewrite lookup_seq_lt by lia. done.
  - rewrite lookup_seq_ge by lia. done.
Qed.

(** On a whole-minute session [np.arange] yields exactly its minutes. *)
Lemma arange_session o c :
  whole_minutes o c →
  arange o (wrap64 (c + NANOS_IN_MINUTE)) NANOS_IN_MINUTE = session_minutes o c.
Proof.
  intros (Hoc & Hmod & _ & _ & Hc).
  rewrite wrap64_int64 by done.
  unfold arange, session_minutes, session_size.
  pose proof NANOS_IN_MINUTE_pos.
  set (q := (c - o) `div` NANOS_IN_MINUTE).
  assert (c - o = NANOS_IN_MINUTE * q) as Hq.
  { unfold q. rewrite (Z.div_mod (c - o) NANOS_IN_MINUTE) at 1 by lia. lia. }
  replace (c + NANOS_IN_MINUTE - o + NANOS_IN_MINUTE - 1)
    with ((2 * NANOS_IN_MINUTE - 1) + q * NANOS_IN_MINUTE) by lia.
  rewrite Z.div_add by lia.
  change ((2 * NANOS_IN_MINUTE - 1) `div` NANOS_IN_MINUTE) with 1.
  by rewrite (Z.add_comm 1 q).
Qed.

Lemma daily_sizes_exact opens closes :
  Forall2 whole_minutes opens closes →
  (λ d, wrap64 (d `div` NANOS_IN_MINUTE + 1))
    <$> zip_with (λ c o, wrap64 (c - o)) closes opens
  = zip_with session_size opens closes.
Proof.
  induction 1 as [|o c os cs Hw _ IH]; [done|].
  cbn [zip_with fmap list_fmap]. f_equal; [|exact IH].
  rewrite (wrap64_int64 (c - o)) by apply Hw.
  by apply (wrap64_int64 (session_size o c)), session_size_int64.
Qed.

Lemma total_minutes_nonneg opens closes :
  Forall2 whole_minutes opens closes → 0 ≤ total_minutes opens closes.
Proof.
  unfold total_minutes.
  induction 1 as [|o c os cs Hw _ IH]; [done|].
  cbn [zip_with foldr]. destruct Hw as (Hoc & _).
  pose proof (session_size_pos o c Hoc). lia.
Qed.

(** A slice of the right size, inside the array, is replaced whole. *)
Lemma slice_assign_block (a : list Z) idx size (vals : list Z) :
  0 ≤ idx → 0 ≤ size → idx + size ≤ Z.of_nat (length a) →
  Z.of_nat (length vals) = size →
  slice_assign a idx (idx + size) vals =
    Ok (take (Z.to_nat idx) a ++ vals ++ drop (Z.to_nat (idx + size)) a).
Proof.
  intros Hidx Hsize Hfit Hvals. unfold slice_assign, slice_index.
  rewrite (proj2 (Z.ltb_ge idx 0)) by lia.
  rewrite (proj2 (Z.ltb_ge (idx + size) 0)) by lia.
  rewrite !Z.min_l by lia.
  replace (idx + size - idx) with size by lia.
  rewrite decide_True by lia.
  by rewrite <-Z2Nat.inj_add by lia.
Qed.

Lemma slice_assign_block_length (a : list Z) idx size (vals : list Z) :
  0 ≤ idx → 0 ≤ size → idx + size ≤ Z.of_nat (length a) →
  Z.of_nat (length vals) = size →
  length (take (Z.to_nat idx) a ++ vals ++ drop (Z.to_nat (idx + size)) a)
    = length a.
Proof.
  intros Hidx Hsize Hfit Hvals.
  rewrite !length_app, length_take, length_drop. lia.
Qed.

(** The loop writes the sessions' minutes one block after the other,
    from [idx] on, and leaves the rest of the array as it was. *)
Lemma fill_minutes_blocks opens closes idx a :
  Forall2 whole_minutes opens closes →
  0 ≤ idx →
  idx + total_minutes opens closes ≤ Z.of_nat (length a) →
  int64 (Z.of_nat (length a)) →
  fill_minutes opens closes (zip_with session_size opens closes) idx a =
    Ok (take (Z.to_nat idx) a
        ++ concat (zip_with session_minutes opens closes)
        ++ drop (Z.to_nat (idx + total_minutes opens closes)) a).
Proof.
  intros Hw. revert idx a.
  induction Hw as [|o c os cs Hoc Hw IH]; intros idx a Hidx Htot Hlen.
  - unfold total_minutes. simpl. by rewrite Z.add_0_r, take_drop.
  - change (total_minutes (o :: os) (c :: cs))
      with (session_size o c + total_minutes os cs) in *.
    pose proof (session_size_pos o c (proj1 Hoc)) as Hsize.
    pose proof (total_minutes_nonneg os cs Hw) as Hrest.
    pose proof (session_minutes_length o c (proj1 Hoc)) as Hvals.
    cbn [zip_with fill_minutes].
    rewrite wrap64_int64 by (unfold int64 in *; lia).
    rewrite arange_session by done.
    rewrite slice_assign_block by lia.
    change (Ok ?x ≫= ?f) with (f x). cbv beta.
    rewrite IH;
      [|lia|rewrite slice_assign_block_length by lia; lia
       |by rewrite slice_assign_block_length by lia].
    f_equal.
    set (vals := session_minutes o c) in *.
    set (pre := take (Z.to_nat idx) a).
    assert (length pre = Z.to_nat idx) as Hpre
      by (unfold pre; rewrite length_take; lia).
    assert (Z.to_nat (idx + session_size o c) = length (pre ++ vals)) as Hcut
      by (rewrite length_app; lia).
    rewrite (app_assoc pre vals).
    rewrite take_app_length' by done.
    rewrite drop_app_ge by lia.
    rewrite drop_drop. cbn [concat].
    rewrite <-!app_assoc. do 3 f_equal.
    rewrite <-Hcut. f_equal. lia.
Qed.

Lemma all_trading_minutes_of_blocks opens closes :
  Forall2 whole_minutes opens closes →
  int64 (total_minutes opens closes) →
  all_trading_minutes_of opens closes
    = Ok (concat (zip_with session_minutes opens closes)).
Proof.
  intros Hw Htot. unfold all_trading_minutes_of.
  rewrite daily_sizes_exact by done.
  fold (total_minutes opens closes).
  pose proof (total_minutes_nonneg opens closes Hw) as Hnonneg.
  rewrite wrap64_int64 by done.
  unfold np_empty. rewrite (proj2 (Z.ltb_ge _ _)) by lia.
  change (Ok ?x ≫= ?f) with (f x). cbv beta.
  rewrite fill_minutes_blocks;
    [|done|lia|rewrite length_replicate; lia
     |by rewrite length_replicate, Z2Nat.id by lia].
  rewrite take_0, drop_ge by (rewrite length_replicate; lia).
  by rewrite app_nil_r.
Qed.

Lemma concat_session_minutes_length opens closes :
  Forall2 whole_minutes opens closes →
  Z.of_nat (length (concat (zip_with session_minutes opens closes)))
    = total_minutes opens closes.
Proof.
  unfold total_minutes.
  induction 1 as [|o c os cs Hoc _ IH]; [done|].
  cbn [zip_with concat foldr].
  rewrite length_app, Nat2Z.inj_add, IH.
  by rewrite (session_minutes_length o c (proj1 Hoc)).
Qed.

(** C2, as stated for every session table, fails: the Thursday session
    of this calendar opens at 09:30:00 and closes at 09:31:30, its size
    is computed as 2, [np.arange] yields 3 instants, and the slice
    assignment raises; no minutes are returned. *)
Lemma half_minute_session_breaks_grid :
  schedule <$> __init__ toy_half_minute_close 0 NANOS_IN_DAY
    = Ok [mk_session 0 34200000000000 34290000000000;
          mk_session 86400000000000 120600000000000 144000000000000] ∧
  __init__ toy_half_minute_close 0 NANOS_IN_DAY ≫= all_trading_minutes
    = Err (CannotBroadcast 3 2).
Proof. split; vm_compute; reflexivity. Qed.

(** C2 (amended): for every calendar in which each session's close is a
    whole number of minutes (zero or more) after its open, and whose
    instants and minute count fit the signed 64-bit arithmetic of the
    code, [all_trading_minutes] returns the concatenation, in session
    order, of each session's minutes; the block of a session has
    [(close - open) / 1 minute + 1] entries, starts at the open, ends at
    the close, and each entry is one minute after the one before; the
    total length is the sum of the block lengths. *)
Theorem all_trading_minutes_grid (self : ExchangeCalendar) :
  Forall2 whole_minutes (_opens self) (_closes self) →
  int64 (total_minutes (_opens self) (_closes self)) →
  all_trading_minutes self
    = Ok (concat (zip_with session_minutes (_opens self) (_closes self))) ∧
  Z.of_nat (length (concat (zip_with session_minutes (_opens self) (_closes self))))
    = foldr Z.add 0
        (zip_with (λ o c, (c - o) `div` NANOS_IN_MINUTE + 1)
           (_opens self) (_closes self)) ∧
  ∀ (i : nat) o c,
    _opens self !! i = Some o → _closes self !! i = Some c →
    Z.of_nat (length (session_minutes o c)) = (c - o) `div` NANOS_IN_MINUTE + 1 ∧
    head (session_minutes o c) = Some o ∧
    last (session_minutes o c) = Some c ∧
    (∀ (k : nat) m, session_minutes o c !! k = Some m →
       m = o + Z.of_nat k * NANOS_IN_MINUTE) ∧
    (∀ (k : nat) m m', session_minutes o c !! k = Some m →
       session_minutes o c !! S k = Some m' → m' = m + NANOS_IN_MINUTE).
Proof.
  intros Hw Htot. split_and!.
  - by apply all_trading_minutes_of_blocks.
  - by apply concat_session_minutes_length.
  - intros i o c Ho Hc.
    destruct (Forall2_lookup_lr _ _ _ _ _ _ Hw Ho Hc) as (Hoc & Hmod & _).
    pose proof (session_size_pos o c Hoc) as Hsize.
    pose proof NANOS_IN_MINUTE_pos as Hmin.
    assert (∀ (k : nat) m, session_minutes o c !! k = Some m →
              m = o + Z.of_nat k * NANOS_IN_MINUTE) as Hkth.
    { intros k m. rewrite session_minutes_lookup.
      case_decide; [|done]. by intros [= <-]. }
    split_and!.
    + by apply session_minutes_length.
    + rewrite head_lookup, session_minutes_lookup.
      rewrite decide_True by (simpl; lia). f_equal. simpl. lia.
    + rewrite last_lookup, session_minutes_lookup.
      pose proof (session_minutes_length o c Hoc) as Hlen.
      rewrite decide_True by lia. f_equal.
      replace (Z.of_nat (Nat.pred (length (session_minutes o c))))
        with (session_size o c - 1) by lia.
      unfold session_size.
      pose proof (Z.div_mod (c - o) NANOS_IN_MINUTE ltac:(lia)) as Hdm.
      rewrite Hmod in Hdm. nia.
    + exact Hkth.
    + intros k m m' Hm Hm'. apply Hkth in Hm, Hm'. lia.
Qed.

Lemma all_trading_minutes_grid_witness :
  all_trading_minutes toy_calendar
    = Ok (concat (zip_with session_minutes (_opens toy_calendar)
                    (_closes toy_calendar))) ∧
  Z.of_nat (length (concat (zip_with session_minutes (_opens toy_calendar)
                              (_closes toy_calendar)))) = 211 + 391.
Proof.
  destruct (all_trading_minutes_grid toy_calendar) as (Hgrid & Hlen & _).
  - apply (bool_decide_unpack _). vm_compute. exact I.
  - apply (bool_decide_unpack _). vm_compute. exact I.
  - split; [exact Hgrid|]. rewrite Hlen. vm_compute. reflexivity.
Defined.

(** * Further properties of the code *)

(** ** The overlay, position by position *)



(** A sequence of writes, done a second time, changes nothing more. *)
Lemma fold_insert_lookup (ws : list (Z * Z)) (l : list Z) (i : nat) :
  fold_left (λ acc iv, <[Z.to_nat iv.1 := iv.2]> acc) ws l !! i =
    match last (filter (λ iv : Z * Z, Z.to_nat iv.1 = i) ws) with
    | Some iv => if decide (i < length l)%nat then Some iv.2 else None
    | None => l !! i
    end.
Proof.
  revert l. induction ws as [|w ws IH]; intros l; [done|].
  cbn [fold_left]. rewrite IH, filter_cons, length_insert.
  destruct (decide (Z.to_nat w.1 = i)) as [Hw|Hw].
  - rewrite last_cons.
    destruct (last (filter (λ iv : Z * Z, Z.to_nat iv.1 = i) ws)); [done|].
    rewrite Hw. case_decide.
    + by apply list_lookup_insert_eq.
    + rewrite list_insert_ge by lia. apply lookup_ge_None. lia.
  - destruct (last (filter (λ iv : Z * Z, Z.to_nat iv.1 = i) ws)); [done|].
    by apply list_lookup_insert_ne.
Qed.

Lemma fold_insert_length (ws : list (Z * Z)) (l : list Z) :
  length (fold_left (λ acc iv, <[Z.to_nat iv.1 := iv.2]> acc) ws l) = length l.
Proof.
  revert l. induction ws as [|w ws IH]; intros l; [done|].
  simpl. rewrite IH. apply length_insert.
Qed.

Lemma fold_insert_idemp (ws : list (Z * Z)) (l : list Z) :
  let write := fold_left (λ acc iv, <[Z.to_nat iv.1 := iv.2]> acc) ws in
  write (write l) = write l.
Proof.
  intros write. apply list_eq. intros i. unfold write.
  rewrite (fold_insert_lookup ws (fold_left _ ws l)), fold_insert_length.
  rewrite (fold_insert_lookup ws l).
  by destruct (last (filter (λ iv : Z * Z, Z.to_nat iv.1 = i) ws)).
Qed.

(** X1: a successful overlay returns a sequence of the same length as
    the one it was given (no row is added or dropped), and applying the
    same overlay to its result succeeds and changes nothing. *)
Theorem overwrite_special_dates_idempotent m oc sp oc' :
  _overwrite_special_dates m oc sp = Ok oc' →
  length oc' = length oc ∧
  _overwrite_special_dates m oc' sp = Ok oc'.
Proof.
  intros Hok.
  destruct (decide (length m = length oc)) as [Hlen|Hlen].
  - rewrite overwrite_special_dates_spec in Hok by done.
    case_decide as Hoff; [|done]. injection Hok as <-.
    pose proof (fancy_assign_length m sp oc) as Hl.
    split; [done|].
    rewrite overwrite_special_dates_spec by congruence.
    rewrite decide_True by done. f_equal.
    apply fold_insert_idemp.
  - unfold _overwrite_special_dates in *.
    case_decide; [by injection Hok as <-|].
    by rewrite decide_True in Hok.
Qed.

Lemma overwrite_special_dates_idempotent_witness :
  length [46800000000000; 144000000000000] = 2%nat ∧
  _overwrite_special_dates [0; 86400000000000]
    [46800000000000; 144000000000000] [46800000000000]
  = Ok [46800000000000; 144000000000000].
Proof.
  apply (overwrite_special_dates_idempotent [0; 86400000000000]
           [57600000000000; 144000000000000] [46800000000000]).
  vm_compute. reflexivity.
Defined.

(** ** The business days of a calendar *)

Lemma day_steps_sorted start (a n : nat) :
  StronglySorted Z.lt
    ((λ k : nat, start + Z.of_nat k * NANOS_IN_DAY) <$> seq a n).
Proof.
  revert a. induction n as [|n IH]; intros a; simpl; [constructor|].
  constructor; [apply IH|].
  apply Forall_forall. intros t (k & -> & Hk)%list_elem_of_fmap.
  apply elem_of_seq in Hk. pose proof NANOS_IN_DAY_pos. nia.
Qed.

Lemma date_range_sorted start end_ day :
  StronglySorted Z.lt (date_range start end_ day).
Proof. apply StronglySorted_lt_filter, day_steps_sorted. Qed.

(** The instants of [date_range]: the business days among
    [start], [start + 1 day], ..., up to [end]. *)
Lemma date_range_elem start end_ day t :
  t ∈ date_range start end_ day ↔
  is_on_offset day t = true ∧
  ∃ k : nat, t = start + Z.of_nat k * NANOS_IN_DAY ∧ t ≤ end_.
Proof.
  pose proof NANOS_IN_DAY_pos as Hpos.
  unfold date_range. rewrite list_elem_of_filter, list_elem_of_fmap.
  rewrite Is_true_true.
  split; intros [Hon (k & -> & Hk)]; (split; [done|]); exists k; (split; [done|]).
  - apply elem_of_seq in Hk as [_ Hk]. simpl in Hk.
    destruct (decide (start ≤ end_)) as [Hse|Hse].
    + assert (Z.of_nat k ≤ (end_ - start) `div` NANOS_IN_DAY) as Hq.
      { assert (0 ≤ (end_ - start) `div` NANOS_IN_DAY)
          by (apply Z.div_pos; lia). lia. }
      pose proof (Z.mul_div_le (end_ - start) NANOS_IN_DAY Hpos). nia.
    + assert ((end_ - start) `div` NANOS_IN_DAY < 0)
        by (apply Z.div_lt_upper_bound; lia). lia.
  - apply elem_of_seq. split; [lia|]. simpl.
    assert (Z.of_nat k ≤ (end_ - start) `div` NANOS_IN_DAY)
      by (apply Z.div_le_lower_bound; lia). lia.
Qed.

Lemma DataFrame_labels days opens closes :
  length opens = length days → length closes = length days →
  session_label <$> DataFrame days opens closes = days.
Proof.
  revert opens closes.
  induction days as [|d days IH]; intros [|o opens] [|c closes] Ho Hc;
    try discriminate; [done|].
  injection Ho as Ho. injection Hc as Hc.
  unfold DataFrame in *. simpl. f_equal. by apply IH.
Qed.

Lemma init_Ok_lengths cls start end_ cal :
  __init__ cls start end_ = Ok cal →
  length (_opens cal) = length (all_days_of cls start end_) ∧
  length (_closes cal) = length (all_days_of cls start end_).
Proof.
  intros Hinit.
  destruct (init_Ok_inv _ _ _ _ Hinit) as (_ & _ & -> & -> & _).
  rewrite !fancy_assign_length. unfold days_at_time.
  by rewrite !length_fmap.
Qed.



Lemma sorted_head_le l f t :
  StronglySorted Z.lt l → head l = Some f → t ∈ l → f ≤ t.
Proof.
  intros Hs Hf Ht. destruct l as [|x l]; [done|].
  injection Hf as ->. apply StronglySorted_cons in Hs as [Hx _].
  apply elem_of_cons in Ht as [->|Ht]; [lia|].
  rewrite Forall_forall in Hx. specialize (Hx _ Ht). lia.
Qed.

Lemma sorted_le_last l z t :
  StronglySorted Z.lt l → last l = Some z → t ∈ l → t ≤ z.
Proof.
  intros Hs Hz Ht. apply last_Some in Hz as [l' ->].
  apply elem_of_app in Ht as [Ht|Ht%list_elem_of_singleton]; [|lia].
  pose proof (StronglySorted_app_1_elem_of _ _ _ _ _ Hs Ht
                (list_elem_of_here z [])). lia.
Qed.

(** X3: the session table of a constructed calendar has exactly one row
    per business day, in order: its index is the business-day sequence,
    [_opens] and [_closes] have one entry per row, [first_trading_day]
    and [last_trading_day] are the first and last session dates, and
    every session date lies between them. *)
Theorem schedule_one_row_per_business_day cls start end_ cal :
  __init__ cls start end_ = Ok cal →
  all_trading_days cal = all_days_of cls start end_ ∧
  length (schedule cal) = length (all_days_of cls start end_) ∧
  length (_opens cal) = length (schedule cal) ∧
  length (_closes cal) = length (schedule cal) ∧
  head (all_trading_days cal) = Some (first_trading_day cal) ∧
  last (all_trading_days cal) = Some (last_trading_day cal) ∧
  ∀ t, t ∈ all_trading_days cal →
    first_trading_day cal ≤ t ≤ last_trading_day cal.
Proof.
  intros Hinit.
  destruct (init_Ok_lengths _ _ _ _ Hinit) as [Ho Hc].
  destruct (init_Ok_inv _ _ _ _ Hinit) as (_ & _ & _ & _ & Hs & Hf & Hl & _).
  assert (all_trading_days cal = all_days_of cls start end_) as Hdays
    by (unfold all_trading_days; by rewrite Hs, DataFrame_labels).
  assert (length (schedule cal) = length (all_days_of cls start end_)) as Hlen
    by (rewrite <-Hdays; unfold all_trading_days; by rewrite length_fmap).
  rewrite Hdays. split_and!; [done|done|congruence|congruence|done|done|].
  intros t Ht. split.
  - eapply sorted_head_le; [apply date_range_sorted|exact Hf|exact Ht].
  - eapply sorted_le_last; [apply date_range_sorted|exact Hl|exact Ht].
Qed.

Lemma schedule_one_row_per_business_day_witness :
  all_trading_days toy_calendar = [0; 86400000000000].
Proof.
  destruct (schedule_one_row_per_business_day toy_early_close 0 NANOS_IN_DAY
              toy_calendar) as (Hdays & _).
  - reflexivity.
  - rewrite Hdays. vm_compute. reflexivity.
Defined.






(** ** Shifting days to a time of day *)

Lemma mod_day_shift d off :
  (d + off * NANOS_IN_DAY) `mod` NANOS_IN_DAY = d `mod` NANOS_IN_DAY.
Proof. apply Z.mod_add. discriminate. Qed.

Lemma mod_second_day_shift d off :
  (d + off * NANOS_IN_DAY) `mod` NANOS_IN_SECOND = d `mod` NANOS_IN_SECOND.
Proof.
  replace (off * NANOS_IN_DAY) with (off * 86400 * NANOS_IN_SECOND)
    by (unfold NANOS_IN_DAY, NANOS_IN_HOUR, NANOS_IN_MINUTE, NANOS_IN_SECOND; lia).
  apply Z.mod_add. discriminate.
Qed.

Lemma day_at_time_whole_second t tz day_offset d :
  d `mod` NANOS_IN_SECOND = 0 →
  day_at_time t tz day_offset d =
    (normalize d + day_offset * NANOS_IN_DAY + nanos_of_time t)
    - utcoffset tz (normalize d + day_offset * NANOS_IN_DAY + nanos_of_time t).
Proof.
  intros Hsec.
  unfold day_at_time, tz_localize, replace_hms, normalize, nanos_of_time.
  rewrite mod_day_shift, mod_second_day_shift, Hsec.
  f_equal; [lia|f_equal; lia].
Qed.



(** ** The registry, operation by operation *)

Lemma globals_eta g :
  {| _static_calendars := _static_calendars g; next_obj_id := next_obj_id g |} = g.
Proof. by destruct g. Qed.

(** X7: [deregister_calendar] never raises; afterwards the name is not
    registered, every other name maps to what it mapped to before, and
    if the name was not registered nothing has changed at all. *)
Theorem deregister_calendar_frame cal_name g :
  (deregister_calendar cal_name g).1 = Ok () ∧
  _static_calendars (deregister_calendar cal_name g).2 !! cal_name = None ∧
  (∀ k, k ≠ cal_name →
     _static_calendars (deregister_calendar cal_name g).2 !! k
       = _static_calendars g !! k) ∧
  (_static_calendars g !! cal_name = None →
   (deregister_calendar cal_name g).2 = g).
Proof.
  unfold deregister_calendar, with_calendars. simpl. split_and!.
  - done.
  - apply lookup_delete_eq.
  - intros k Hk. by apply lookup_delete_ne.
  - intros Hnone. rewrite delete_id by done. apply globals_eta.
Qed.

(** X8: registering a calendar under a name that is free and then
    deregistering that name gives back the registry as it was. *)
Theorem register_deregister_round_trip calendar force g :
  _static_calendars g !! calendar_name calendar = None →
  ∃ g',
    register_calendar calendar force g = (Ok (), g') ∧
    _static_calendars g' !! calendar_name calendar = Some calendar ∧
    deregister_calendar (calendar_name calendar) g' = (Ok (), g).
Proof.
  intros Hfree. eexists. split_and!.
  - unfold register_calendar, bind, ret, deregister_calendar.
    destruct force; simpl.
    + rewrite decide_False by (rewrite lookup_delete_eq; by intros [? ?]).
      rewrite delete_id by done. reflexivity.
    + rewrite decide_False by (rewrite Hfree; by intros [? ?]). reflexivity.
  - simpl. apply lookup_insert_eq.
  - unfold deregister_calendar, with_calendars. simpl.
    rewrite delete_insert_id by done. by rewrite globals_eta.
Qed.

Lemma register_deregister_round_trip_witness :
  let g := {| _static_calendars := ∅; next_obj_id := 1 |} in
  ∃ g',
    register_calendar (mk_object 0 toy_calendar) false g = (Ok (), g') ∧
    _static_calendars g' !! "TOY" = Some (mk_object 0 toy_calendar) ∧
    deregister_calendar "TOY" g' = (Ok (), g).
Proof.
  intros g.
  apply (register_deregister_round_trip (mk_object 0 toy_calendar) false g).
  apply lookup_empty.
Defined.

Lemma register_calendar_keeps cal g r g' :
  register_calendar cal false g = (r, g') →
  next_obj_id g' = next_obj_id g ∧
  ∀ k c, _static_calendars g !! k = Some c → _static_calendars g' !! k = Some c.
Proof.
  unfold register_calendar, bind, ret. simpl.
  case_decide as Hreg; intros [= <- <-]; [done|].
  split; [done|]. intros k c Hk. simpl.
  rewrite lookup_insert_ne; [done|].
  intros <-. apply Hreg. by rewrite Hk.
Qed.

Section registry_more.

Variables NYSEExchangeCalendar CMEExchangeCalendar BMFExchangeCalendar
          LSEExchangeCalendar TSXExchangeCalendar : ExchangeCalendarClass.
Variables start_default end_default : Z.

Lemma build_and_register_keeps cls start end_ g r g' :
  build_and_register start_default end_default cls start end_ g = (r, g') →
  (next_obj_id g ≤ next_obj_id g')%nat ∧
  ∀ k c, _static_calendars g !! k = Some c → _static_calendars g' !! k = Some c.
Proof.
  unfold build_and_register, bind, instantiate.
  destruct (__init__ cls _ _) as [cal|e]; [|by intros [= <- <-]].
  intros Hreg. apply register_calendar_keeps in Hreg as [Hid Hkeep].
  simpl in *. split; [lia|]. exact Hkeep.
Qed.

(** X9: whatever [get_calendar] does (return a calendar, build one, or
    raise), every calendar that was registered before the call is still
    registered under its name afterwards, as the same object. *)
Theorem get_calendar_keeps_registered name start end_ g r g' :
  get_calendar NYSEExchangeCalendar CMEExchangeCalendar BMFExchangeCalendar
    LSEExchangeCalendar TSXExchangeCalendar start_default end_default
    name start end_ g = (r, g') →
  ∀ k c, _static_calendars g !! k = Some c → _static_calendars g' !! k = Some c.
Proof.
  unfold get_calendar. unfold bind at 1.
  match goal with |- (let '(_, _) := ?m in _) = _ → _ =>
    destruct m as [r1 g1] eqn:Hm end.
  assert (∀ k c, _static_calendars g !! k = Some c →
                 _static_calendars g1 !! k = Some c) as Hkeep.
  { case_decide as Hreg; [|by injection Hm as <- <-].
    repeat (case_decide;
      [by apply build_and_register_keeps in Hm as [_ ?]|]).
    by injection Hm as <- <-. }
  destruct r1 as [[]|e]; [|by intros [= <- <-]].
  destruct (_static_calendars g1 !! name); by intros [= <- <-].
Qed.

(** X10: for one of the five known names that is not registered, when
    the class's constructor raises, [get_calendar] raises the same
    exception and the registry is left exactly as it was. *)
Theorem get_calendar_construction_fails nm cls start end_ g e :
  _static_calendars g !! nm = None →
  (nm, cls) ∈ [("NYSE", NYSEExchangeCalendar); ("CME", CMEExchangeCalendar);
               ("BMF", BMFExchangeCalendar); ("LSE", LSEExchangeCalendar);
               ("TSX", TSXExchangeCalendar)] →
  __init__ cls (default start_default start) (default end_default end_) = Err e →
  get_calendar NYSEExchangeCalendar CMEExchangeCalendar BMFExchangeCalendar
    LSEExchangeCalendar TSXExchangeCalendar start_default end_default
    nm start end_ g = (Err e, g).
Proof.
  intros Hnone Hcls Hinit.
  unfold get_calendar. unfold bind at 1.
  rewrite decide_True by done.
  repeat (apply elem_of_cons in Hcls as [[= -> ->]|Hcls];
    [ repeat (rewrite decide_False by discriminate);
      rewrite decide_True by done;
      unfold build_and_register, instantiate, bind;
      by rewrite Hinit
    |]).
  by apply elem_of_nil in Hcls.
Qed.

(** X11: for a known name that is not registered, whose class
    constructs but declares another name (itself not registered), the
    calendar is registered under the name the class declares and
    [get_calendar] then raises [KeyError] for the name asked. *)
Theorem get_calendar_name_mismatch nm cls start end_ g cal :
  _static_calendars g !! nm = None →
  (nm, cls) ∈ [("NYSE", NYSEExchangeCalendar); ("CME", CMEExchangeCalendar);
               ("BMF", BMFExchangeCalendar); ("LSE", LSEExchangeCalendar);
               ("TSX", TSXExchangeCalendar)] →
  name cls ≠ nm →
  _static_calendars g !! name cls = None →
  __init__ cls (default start_default start) (default end_default end_) = Ok cal →
  let calendar := {| obj_id := next_obj_id g; obj_calendar := cal |} in
  get_calendar NYSEExchangeCalendar CMEExchangeCalendar BMFExchangeCalendar
    LSEExchangeCalendar TSXExchangeCalendar start_default end_default
    nm start end_ g =
    (Err (KeyError nm),
     {| _static_calendars := <[name cls := calendar]> (_static_calendars g);
        next_obj_id := S (next_obj_id g) |}).
Proof.
  intros Hnone Hcls Hname Hfree Hinit calendar.
  assert (class_of cal = cls) as Hclass
    by (by destruct (init_Ok_inv _ _ _ _ Hinit) as (_&_&_&_&_&_&_&?)).
  unfold get_calendar. unfold bind at 1.
  rewrite decide_True by done.
  repeat (apply elem_of_cons in Hcls as [[= -> ->]|Hcls];
    [ repeat (rewrite decide_False by discriminate);
      rewrite decide_True by done;
      unfold build_and_register, instantiate, bind, register_calendar, ret;
      rewrite Hinit; simpl; unfold calendar_name; simpl;
      rewrite Hclass; unfold bind; simpl;
      rewrite decide_False by (rewrite Hfree; by intros [? ?]);
      simpl; by rewrite lookup_insert_ne, Hnone
    |]).
  by apply elem_of_nil in Hcls.
Qed.

(** X12: for a known name that is not registered, whose class carries
    that name and constructs over the bounds given (the defaults where
    none is given), the first call builds the calendar from those
    bounds and registers it; a later call with other bounds returns
    that same object and constructs nothing. *)
Theorem get_calendar_first_bounds_win nm cls start end_ start' end' g cal :
  _static_calendars g !! nm = None →
  (nm, cls) ∈ [("NYSE", NYSEExchangeCalendar); ("CME", CMEExchangeCalendar);
               ("BMF", BMFExchangeCalendar); ("LSE", LSEExchangeCalendar);
               ("TSX", TSXExchangeCalendar)] →
  name cls = nm →
  __init__ cls (default start_default start) (default end_default end_) = Ok cal →
  let calendar := {| obj_id := next_obj_id g; obj_calendar := cal |} in
  let g' := {| _static_calendars := <[nm := calendar]> (_static_calendars g);
               next_obj_id := S (next_obj_id g) |} in
  get_calendar NYSEExchangeCalendar CMEExchangeCalendar BMFExchangeCalendar
    LSEExchangeCalendar TSXExchangeCalendar start_default end_default
    nm start end_ g = (Ok calendar, g') ∧
  get_calendar NYSEExchangeCalendar CMEExchangeCalendar BMFExchangeCalendar
    LSEExchangeCalendar TSXExchangeCalendar start_default end_default
    nm start' end' g' = (Ok calendar, g').
Proof.
  intros Hnone Hcls Hname Hinit calendar g'. split.
  - by eapply get_calendar_builds.
  - apply get_calendar_registered. simpl. apply lookup_insert_eq.
Qed.

(** X13: after [clear_calendars] no calendar is registered, so a name
    outside the five known ones makes [get_calendar] raise
    [InvalidCalendarName], whatever was registered before. *)
Theorem clear_calendars_forgets name start end_ g :
  ¬ known_exchange name →
  (clear_calendars g).1 = Ok () ∧
  _static_calendars (clear_calendars g).2 = ∅ ∧
  get_calendar NYSEExchangeCalendar CMEExchangeCalendar BMFExchangeCalendar
    LSEExchangeCalendar TSXExchangeCalendar start_default end_default
    name start end_ (clear_calendars g).2
  = (Err (InvalidCalendarName name), (clear_calendars g).2).
Proof.
  intros Hunk. split_and!; [done..|].
  apply get_calendar_unknown; [apply lookup_empty|done].
Qed.

End registry_more.

Lemma get_calendar_keeps_registered_witness :
  let g := {| _static_calendars := {[ "TOY" := mk_object 0 toy_calendar ]};
              next_obj_id := 1 |} in
  _static_calendars
    (get_calendar (toy_exchange "NYSE" []) (toy_exchange "CME" [])
       (toy_exchange "BMF" []) (toy_exchange "LSE" []) (toy_exchange "TSX" [])
       0 NANOS_IN_DAY "LME" None None g).2 !! "TOY"
  = Some (mk_object 0 toy_calendar).
Proof.
  intros g.
  apply (get_calendar_keeps_registered (toy_exchange "NYSE" [])
           (toy_exchange "CME" []) (toy_exchange "BMF" [])
           (toy_exchange "LSE" []) (toy_exchange "TSX" []) 0 NANOS_IN_DAY
           "LME" None None g
           (get_calendar (toy_exchange "NYSE" []) (toy_exchange "CME" [])
              (toy_exchange "BMF" []) (toy_exchange "LSE" [])
              (toy_exchange "TSX" []) 0 NANOS_IN_DAY "LME" None None g).1).
  - by destruct (get_calendar _ _ _ _ _ _ _ _ _ _ _).
  - apply lookup_singleton_eq.
Defined.

Lemma get_calendar_construction_fails_witness :
  get_calendar (toy_exchange "NYSE" [(mk_time 13 0 0, [2 * NANOS_IN_DAY])])
    (toy_exchange "CME" []) (toy_exchange "BMF" []) (toy_exchange "LSE" [])
    (toy_exchange "TSX" []) 0 (4 * NANOS_IN_DAY) "NYSE" None None
    {| _static_calendars := ∅; next_obj_id := 0 |}
  = (Err (SpecialDatesNotTradingDays [219600000000000]),
     {| _static_calendars := ∅; next_obj_id := 0 |}).
Proof.
  apply (get_calendar_construction_fails _ _ _ _ _ _ _ "NYSE"
           (toy_exchange "NYSE" [(mk_time 13 0 0, [2 * NANOS_IN_DAY])])).
  - apply lookup_empty.
  - apply list_elem_of_here.
  - vm_compute. reflexivity.
Defined.

Lemma get_calendar_name_mismatch_witness :
  let g := {| _static_calendars := ∅; next_obj_id := 0 |} in
  let calendar :=
    mk_object 0
      (toy_two_days (toy_exchange "TOY" []) [57600000000000; 144000000000000] []) in
  get_calendar (toy_exchange "TOY" []) (toy_exchange "CME" [])
    (toy_exchange "BMF" []) (toy_exchange "LSE" []) (toy_exchange "TSX" [])
    0 NANOS_IN_DAY "NYSE" None None g
  = (Err (KeyError "NYSE"),
     {| _static_calendars := <["TOY" := calendar]> ∅; next_obj_id := 1 |}).
Proof.
  intros g calendar.
  apply (get_calendar_name_mismatch _ _ _ _ _ _ _ "NYSE" (toy_exchange "TOY" [])
           None None g).
  - apply lookup_empty.
  - apply list_elem_of_here.
  - discriminate.
  - apply lookup_empty.
  - reflexivity.
Defined.

Lemma get_calendar_first_bounds_win_witness :
  let get :=
    get_calendar (toy_exchange "NYSE" []) (toy_exchange "CME" [])
      (toy_exchange "BMF" []) (toy_exchange "LSE" []) (toy_exchange "TSX" [])
      (9 * NANOS_IN_DAY) (9 * NANOS_IN_DAY) in
  let g := {| _static_calendars := ∅; next_obj_id := 0 |} in
  let nyse :=
    mk_object 0
      (toy_two_days (toy_exchange "NYSE" [])
         [57600000000000; 144000000000000] []) in
  let g' := {| _static_calendars := <["NYSE" := nyse]> ∅; next_obj_id := 1 |} in
  get "NYSE" (Some 0) (Some NANOS_IN_DAY) g = (Ok nyse, g') ∧
  get "NYSE" (Some (4 * NANOS_IN_DAY)) None g' = (Ok nyse, g').
Proof.
  intros get g nyse g'.
  apply (get_calendar_first_bounds_win _ _ _ _ _ _ _ "NYSE"
           (toy_exchange "NYSE" []) (Some 0) (Some NANOS_IN_DAY)
           (Some (4 * NANOS_IN_DAY)) None g).
  - apply lookup_empty.
  - apply list_elem_of_here.
  - reflexivity.
  - reflexivity.
Defined.

Lemma clear_calendars_forgets_witness :
  let g := {| _static_calendars := {[ "LME" := mk_object 0 toy_calendar ]};
              next_obj_id := 1 |} in
  get_calendar (toy_exchange "NYSE" []) (toy_exchange "CME" [])
    (toy_exchange "BMF" []) (toy_exchange "LSE" []) (toy_exchange "TSX" [])
    0 NANOS_IN_DAY "LME" None None (clear_calendars g).2
  = (Err (InvalidCalendarName "LME"), (clear_calendars g).2).
Proof.
  intros g.
  apply (clear_calendars_forgets (toy_exchange "NYSE" []) (toy_exchange "CME" [])
           (toy_exchange "BMF" []) (toy_exchange "LSE" []) (toy_exchange "TSX" [])
           0 NANOS_IN_DAY "LME" None None g).
  apply (bool_decide_unpack _). vm_compute. exact I.
Defined.

(** ** The minute grid, minute by minute *)

Lemma session_minutes_elem o c t :
  o ≤ c → (c - o) `mod` NANOS_IN_MINUTE = 0 →
  t ∈ session_minutes o c ↔ o ≤ t ≤ c ∧ (t - o) `mod` NANOS_IN_MINUTE = 0.
Proof.
  intros Hoc Hmod. pose proof NANOS_IN_MINUTE_pos as Hpos.
  pose proof (Z.div_mod (c - o) NANOS_IN_MINUTE ltac:(lia)) as Hq.
  rewrite Hmod in Hq.
  assert (0 ≤ (c - o) `div` NANOS_IN_MINUTE) as Hq0 by (apply Z.div_pos; lia).
  unfold session_minutes, session_size. rewrite list_elem_of_fmap. split.
  - intros (k & -> & [_ Hk]%elem_of_seq). simpl in Hk.
    split; [nia|].
    replace (o + Z.of_nat k * NANOS_IN_MINUTE - o)
      with (Z.of_nat k * NANOS_IN_MINUTE) by lia.
    apply Z.mod_mul. lia.
  - intros ([Hot Htc] & Ht).
    pose proof (Z.div_mod (t - o) NANOS_IN_MINUTE ltac:(lia)) as Hk.
    rewrite Ht in Hk.
    assert (0 ≤ (t - o) `div` NANOS_IN_MINUTE) by (apply Z.div_pos; lia).
    assert ((t - o) `div` NANOS_IN_MINUTE ≤ (c - o) `div` NANOS_IN_MINUTE)
      by (apply Z.div_le_mono; lia).
    exists (Z.to_nat ((t - o) `div` NANOS_IN_MINUTE)). split.
    + rewrite Z2Nat.id by lia. lia.
    + apply elem_of_seq. simpl. lia.
Qed.

Lemma concat_session_minutes_elem opens closes t :
  Forall2 whole_minutes opens closes →
  t ∈ concat (zip_with session_minutes opens closes) ↔
  ∃ o c, (o, c) ∈ zip opens closes ∧
         o ≤ t ≤ c ∧ (t - o) `mod` NANOS_IN_MINUTE = 0.
Proof.
  induction 1 as [|o c os cs Hoc _ IH]; simpl.
  - split; [by intros ?%elem_of_nil|]. by intros (? & ? & ?%elem_of_nil & _).
  - rewrite elem_of_app, IH.
    rewrite (session_minutes_elem o c t) by apply Hoc.
    split.
    + intros [?|(o' & c' & Hin & ?)].
      * exists o, c. split; [left|done].
      * exists o', c'. split; [by right|done].
    + intros (o' & c' & [[= -> ->]|Hin]%elem_of_cons & ?); [by left|].
      right. by exists o', c'.
Qed.

(** X14: when every session lasts a whole number of minutes (and the
    64-bit arithmetic is exact), an instant is one of
    [all_trading_minutes] exactly when it lies in some session, open and
    close included, a whole number of minutes after that session's
    open. *)
Theorem trading_minute_iff (self : ExchangeCalendar) :
  Forall2 whole_minutes (_opens self) (_closes self) →
  int64 (total_minutes (_opens self) (_closes self)) →
  ∃ minutes,
    all_trading_minutes self = Ok minutes ∧
    ∀ t, t ∈ minutes ↔
      ∃ o c, (o, c) ∈ zip (_opens self) (_closes self) ∧
             o ≤ t ≤ c ∧ (t - o) `mod` NANOS_IN_MINUTE = 0.
Proof.
  intros Hw Htot. eexists. split.
  - by apply all_trading_minutes_of_blocks.
  - intros t. by apply concat_session_minutes_elem.
Qed.

Lemma trading_minute_iff_witness :
  ∃ minutes,
    all_trading_minutes toy_calendar = Ok minutes ∧
    ∀ t, t ∈ minutes ↔
      ∃ o c, (o, c) ∈ zip (_opens toy_calendar) (_closes toy_calendar) ∧
             o ≤ t ≤ c ∧ (t - o) `mod` NANOS_IN_MINUTE = 0.
Proof.
  apply (trading_minute_iff toy_calendar).
  - apply (bool_decide_unpack _). vm_compute. exact I.
  - apply (bool_decide_unpack _). vm_compute. exact I.
Defined.

Lemma minute_steps_sorted start (a n : nat) :
  StronglySorted Z.lt
    ((λ k : nat, start + Z.of_nat k * NANOS_IN_MINUTE) <$> seq a n).
Proof.
  revert a. induction n as [|n IH]; intros a; simpl; [constructor|].
  constructor; [apply IH|].
  apply Forall_forall. intros t (k & -> & Hk)%list_elem_of_fmap.
  apply elem_of_seq in Hk. pose proof NANOS_IN_MINUTE_pos. nia.
Qed.

Lemma concat_session_minutes_sorted opens closes b :
  Forall2 whole_minutes opens closes →
  sessions_in_order opens closes →
  (∀ o1, head opens = Some o1 → b < o1) →
  Forall (Z.lt b) (concat (zip_with session_minutes opens closes)) ∧
  StronglySorted Z.lt (concat (zip_with session_minutes opens closes)).
Proof.
  intros Hw. revert b.
  induction Hw as [|o c os cs Hoc Hw IH]; intros b Hord Hb; simpl.
  - split; constructor.
  - destruct Hoc as (Hle & Hmod & _).
    specialize (Hb o eq_refl).
    destruct (IH c) as [Habove Hsorted].
    { intros i c' o' Hc' Ho'. by apply (Hord (S i)). }
    { intros o1 Ho1. apply (Hord 0%nat c o1); [done|].
      by destruct os; simplify_eq/=. }
    assert (∀ t, t ∈ session_minutes o c → o ≤ t ≤ c) as Hblock
      by (intros t Ht; by apply session_minutes_elem in Ht as [? _]).
    rewrite Forall_forall in Habove.
    split.
    + apply Forall_forall. intros t [Ht|Ht]%elem_of_app.
      * specialize (Hblock t Ht). lia.
      * specialize (Habove t Ht). lia.
    + apply StronglySorted_app. split_and!; [|apply minute_steps_sorted|done].
      intros x1 x2 Hx1 Hx2.
      specialize (Hblock x1 Hx1). specialize (Habove x2 Hx2). lia.
Qed.

(** X15: when every session lasts a whole number of minutes and closes
    before the next session opens, [all_trading_minutes] is strictly
    increasing over the whole horizon: no minute occurs twice, within a
    session or across sessions. *)
Theorem trading_minutes_increasing (self : ExchangeCalendar) :
  Forall2 whole_minutes (_opens self) (_closes self) →
  int64 (total_minutes (_opens self) (_closes self)) →
  sessions_in_order (_opens self) (_closes self) →
  ∃ minutes,
    all_trading_minutes self = Ok minutes ∧
    StronglySorted Z.lt minutes ∧ NoDup minutes.
Proof.
  intros Hw Htot Hord. eexists. split.
  - by apply all_trading_minutes_of_blocks.
  - assert (StronglySorted Z.lt
              (concat (zip_with session_minutes (_opens self) (_closes self))))
      as Hsorted.
    { destruct (_opens self) as [|o os] eqn:Ho.
      - inversion Hw. constructor.
      - by apply (concat_session_minutes_sorted _ _ (o - 1));
          [| |intros o1 [= <-]; lia]. }
    split; [done|by apply StronglySorted_lt_NoDup].
Qed.

Lemma sessions_in_order_two o1 c1 o2 c2 :
  c1 < o2 → sessions_in_order [o1; o2] [c1; c2].
Proof.
  intros Hlt [|[|i]] c o' Hc Ho; simplify_eq/=; try done.
Qed.

Lemma trading_minutes_increasing_witness :
  ∃ minutes,
    all_trading_minutes toy_calendar = Ok minutes ∧
    StronglySorted Z.lt minutes ∧ NoDup minutes.
Proof.
  apply (trading_minutes_increasing toy_calendar).
  - apply (bool_decide_unpack _). vm_compute. exact I.
  - apply (bool_decide_unpack _). vm_compute. exact I.
  - apply sessions_in_order_two. reflexivity.
Defined.

(** ** Sessions that are not a whole number of minutes *)

Lemma session_fits_whole o c :
  session_fits o c → (c - o) `mod` NANOS_IN_MINUTE = 0 → whole_minutes o c.
Proof. intros (? & ? & ? & ?) ?. unfold whole_minutes. by split_and!. Qed.

Lemma session_size_int64_fits o c : session_fits o c → int64 (session_size o c).
Proof.
  intros (Hoc & _ & [_ Hd] & _).
  pose proof (session_size_pos o c Hoc).
  unfold int64, session_size in *. split; [lia|].
  destruct (decide (c - o = 0)) as [->|]; [reflexivity|].
  assert ((c - o) `div` NANOS_IN_MINUTE < c - o)
    by (apply Z.div_lt; [lia|reflexivity]).
  lia.
Qed.

Lemma daily_sizes_exact_fits opens closes :
  Forall2 session_fits opens closes →
  (λ d, wrap64 (d `div` NANOS_IN_MINUTE + 1))
    <$> zip_with (λ c o, wrap64 (c - o)) closes opens
  = zip_with session_size opens closes.
Proof.
  induction 1 as [|o c os cs Hf _ IH]; [done|].
  cbn [zip_with fmap list_fmap]. f_equal; [|exact IH].
  rewrite (wrap64_int64 (c - o)) by apply Hf.
  by apply (wrap64_int64 (session_size o c)), session_size_int64_fits.
Qed.

Lemma total_minutes_nonneg_fits opens closes :
  Forall2 session_fits opens closes → 0 ≤ total_minutes opens closes.
Proof.
  unfold total_minutes.
  induction 1 as [|o c os cs Hf _ IH]; [done|].
  cbn [zip_with foldr]. pose proof (session_size_pos o c (proj1 Hf)). lia.
Qed.

(** On a session with a fraction of a minute [np.arange] yields one
    instant more than the size computed for the session. *)
Lemma arange_misaligned_length o c :
  session_fits o c → (c - o) `mod` NANOS_IN_MINUTE ≠ 0 →
  Z.of_nat (length (arange o (wrap64 (c + NANOS_IN_MINUTE)) NANOS_IN_MINUTE))
  = session_size o c + 1.
Proof.
  intros (Hoc & _ & _ & Hc) Hmod.
  rewrite wrap64_int64 by done.
  unfold arange, session_size. rewrite length_fmap, length_seq.
  pose proof NANOS_IN_MINUTE_pos as Hpos.
  pose proof (Z.div_mod (c - o) NANOS_IN_MINUTE ltac:(lia)) as Hq.
  pose proof (Z.mod_pos_bound (c - o) NANOS_IN_MINUTE Hpos) as Hr.
  set (q := (c - o) `div` NANOS_IN_MINUTE) in *.
  set (r := (c - o) `mod` NANOS_IN_MINUTE) in *.
  assert (0 ≤ q) by (apply Z.div_pos; lia).
  replace (c + NANOS_IN_MINUTE - o + NANOS_IN_MINUTE - 1)
    with ((r - 1) + (q + 2) * NANOS_IN_MINUTE) by lia.
  rewrite Z.div_add by lia.
  rewrite (Z.div_small (r - 1)) by lia. lia.
Qed.

Lemma slice_assign_one_too_many (a : list Z) idx size (vals : list Z) :
  0 ≤ idx → 0 < size → idx + size ≤ Z.of_nat (length a) →
  Z.of_nat (length vals) = size + 1 →
  slice_assign a idx (idx + size) vals = Err (CannotBroadcast (size + 1) size).
Proof.
  intros Hidx Hsize Hfit Hvals. unfold slice_assign, slice_index.
  rewrite (proj2 (Z.ltb_ge idx 0)) by lia.
  rewrite (proj2 (Z.ltb_ge (idx + size) 0)) by lia.
  rewrite !Z.min_l by lia.
  replace (idx + size - idx) with size by lia.
  rewrite decide_False by lia.
  destruct vals as [|v [|v' vs]]; [simpl in Hvals; lia..|].
  by rewrite Hvals, Z2Nat.id by lia.
Qed.

Lemma fill_minutes_misaligned opens closes idx a :
  Forall2 session_fits opens closes →
  Exists (λ oc : Z * Z, (oc.2 - oc.1) `mod` NANOS_IN_MINUTE ≠ 0)
    (zip opens closes) →
  0 ≤ idx →
  idx + total_minutes opens closes ≤ Z.of_nat (length a) →
  int64 (Z.of_nat (length a)) →
  ∃ n, fill_minutes opens closes (zip_with session_size opens closes) idx a
       = Err (CannotBroadcast (n + 1) n).
Proof.
  intros Hf. revert idx a.
  induction Hf as [|o c os cs Hoc Hf IH]; intros idx a Hbad Hidx Htot Hlen.
  - by apply Exists_nil in Hbad.
  - change (total_minutes (o :: os) (c :: cs))
      with (session_size o c + total_minutes os cs) in *.
    pose proof (session_size_pos o c (proj1 Hoc)) as Hsize.
    pose proof (total_minutes_nonneg_fits os cs Hf) as Hrest.
    cbn [zip_with fill_minutes].
    rewrite wrap64_int64 by (unfold int64 in *; lia).
    destruct (decide ((c - o) `mod` NANOS_IN_MINUTE = 0)) as [Hmod|Hmod].
    + pose proof (session_fits_whole o c Hoc Hmod) as Hw.
      pose proof (session_minutes_length o c (proj1 Hoc)) as Hvals.
      rewrite arange_session by done.
      rewrite slice_assign_block by lia.
      change (Ok ?x ≫= ?f) with (f x). cbv beta.
      apply IH.
      * apply Exists_cons in Hbad as [Hbad|Hbad]; [done|exact Hbad].
      * lia.
      * rewrite slice_assign_block_length by lia. lia.
      * by rewrite slice_assign_block_length by lia.
    + exists (session_size o c).
      rewrite slice_assign_one_too_many;
        [done|lia|lia|lia|by apply arange_misaligned_length].
Qed.

(** X16: when no session closes before it opens (and the 64-bit
    arithmetic is exact) but some session is not a whole number of
    minutes long, [all_trading_minutes] raises the [ValueError] of a
    slice assignment given one instant too many; together with the
    whole-minute case, it returns exactly when every session is a whole
    number of minutes long. *)
Theorem all_trading_minutes_fraction_raises (self : ExchangeCalendar) :
  Forall2 session_fits (_opens self) (_closes self) →
  int64 (total_minutes (_opens self) (_closes self)) →
  Exists (λ oc : Z * Z, (oc.2 - oc.1) `mod` NANOS_IN_MINUTE ≠ 0)
    (zip (_opens self) (_closes self)) →
  ∃ n, all_trading_minutes self = Err (CannotBroadcast (n + 1) n).
Proof.
  intros Hf Htot Hbad. unfold all_trading_minutes, all_trading_minutes_of.
  rewrite daily_sizes_exact_fits by done.
  fold (total_minutes (_opens self) (_closes self)).
  pose proof (total_minutes_nonneg_fits _ _ Hf) as Hnonneg.
  rewrite wrap64_int64 by done.
  unfold np_empty. rewrite (proj2 (Z.ltb_ge _ _)) by lia.
  change (Ok ?x ≫= ?f) with (f x). cbv beta.
  apply fill_minutes_misaligned; [done|done|done|..].
  - rewrite length_replicate. lia.
  - by rewrite length_replicate, Z2Nat.id by lia.
Qed.

Lemma all_trading_minutes_fraction_raises_witness :
  ∃ n,
    all_trading_minutes
      (toy_two_days toy_half_minute_close
         [34290000000000; 144000000000000] [0])
    = Err (CannotBroadcast (n + 1) n).
Proof.
  apply (all_trading_minutes_fraction_raises
           (toy_two_days toy_half_minute_close
              [34290000000000; 144000000000000] [0])).
  - apply (bool_decide_unpack _). vm_compute. exact I.
  - apply (bool_decide_unpack _). vm_compute. exact I.
  - apply Exists_cons_hd. vm_compute. discriminate.
Defined.

(** ** Registering, then asking *)

Section register_then_get.

Variables NYSEExchangeCalendar CMEExchangeCalendar BMFExchangeCalendar
          LSEExchangeCalendar TSXExchangeCalendar : ExchangeCalendarClass.
Variables start_default end_default : Z.

(** X17: a calendar registered under a free name, known exchange or
    not, with or without [force], is what [get_calendar] returns for
    that name whatever bounds it is given; the registration touches no
    other name and constructs nothing. *)
Theorem register_then_get calendar force start end_ g :
  _static_calendars g !! calendar_name calendar = None →
  ∃ g',
    register_calendar calendar force g = (Ok (), g') ∧
    get_calendar NYSEExchangeCalendar CMEExchangeCalendar BMFExchangeCalendar
      LSEExchangeCalendar TSXExchangeCalendar start_default end_default
      (calendar_name calendar) start end_ g' = (Ok calendar, g') ∧
    (∀ k, k ≠ calendar_name calendar →
       _static_calendars g' !! k = _static_calendars g !! k) ∧
    next_obj_id g' = next_obj_id g.
Proof.
  intros Hfree.
  exists (with_calendars g
            (<[calendar_name calendar := calendar]> (_static_calendars g))).
  split_and!.
  - unfold register_calendar, bind, ret, deregister_calendar.
    destruct force; simpl.
    + rewrite decide_False by (rewrite lookup_delete_eq; by intros [? ?]).
      unfold with_calendars. simpl. by rewrite delete_id by done.
    + by rewrite decide_False by (rewrite Hfree; by intros [? ?]).
  - apply get_calendar_registered. simpl. apply lookup_insert_eq.
  - intros k Hk. simpl. by apply lookup_insert_ne.
  - done.
Qed.

End register_then_get.

Lemma register_then_get_witness :
  let g := {| _static_calendars := ∅; next_obj_id := 1 |} in
  ∃ g',
    register_calendar (mk_object 0 toy_calendar) true g = (Ok (), g') ∧
    get_calendar (toy_exchange "NYSE" []) (toy_exchange "CME" [])
      (toy_exchange "BMF" []) (toy_exchange "LSE" []) (toy_exchange "TSX" [])
      0 NANOS_IN_DAY "TOY" (Some 0) None g' = (Ok (mk_object 0 toy_calendar), g') ∧
    (∀ k, k ≠ "TOY" → _static_calendars g' !! k = _static_calendars g !! k) ∧
    next_obj_id g' = next_obj_id g.
Proof.
  intros g.
  apply (register_then_get (toy_exchange "NYSE" []) (toy_exchange "CME" [])
           (toy_exchange "BMF" []) (toy_exchange "LSE" []) (toy_exchange "TSX" [])
           0 NANOS_IN_DAY (mk_object 0 toy_calendar) true (Some 0) None g).
  apply lookup_empty.
Defined.

(** ** Nominal sessions *)

Lemma all_days_whole_seconds cls start end_ d :
  start `mod` NANOS_IN_SECOND = 0 →
  d ∈ all_days_of cls start end_ →
  d `mod` NANOS_IN_SECOND = 0.
Proof.
  intros Hstart (_ & k & -> & _)%date_range_elem.
  by rewrite mod_second_day_shift.
Qed.

(** X18: a calendar without special opens and closes, whose zone has
    one fixed UTC offset, built from a [start] that is a whole number
    of seconds, has [market_open < market_close] in every row as soon as
    the open time of day, shifted by [open_offset] days, is before the
    close time of day, shifted by [close_offset] days. *)
Theorem nominal_sessions_open_before_close cls start end_ cal :
  __init__ cls start end_ = Ok cal →
  _special_opens cls start end_ = [] →
  _special_closes cls start end_ = [] →
  (∀ w w', utcoffset (tz cls) w = utcoffset (tz cls) w') →
  start `mod` NANOS_IN_SECOND = 0 →
  open_offset cls * NANOS_IN_DAY + nanos_of_time (open_time cls)
    < close_offset cls * NANOS_IN_DAY + nanos_of_time (close_time cls) →
  ∀ row, row ∈ schedule cal → market_open row < market_close row.
Proof.
  intros Hinit Hso Hsc Hfixed Hstart Htimes row Hrow.
  destruct (init_Ok_inv _ _ _ _ Hinit) as (_ & _ & Ho & Hc & Hs & _).
  rewrite Hso in Ho. rewrite Hsc in Hc.
  apply list_elem_of_lookup in Hrow as [i Hi].
  rewrite Hs in Hi. apply DataFrame_lookup in Hi as (Hd & Hmo & Hmc).
  rewrite Ho in Hmo. rewrite Hc in Hmc.
  change (fancy_assign ?l _ []) with l in Hmo, Hmc.
  assert (session_label row `mod` NANOS_IN_SECOND = 0) as Hsec
    by (eapply all_days_whole_seconds; [done|by eapply list_elem_of_lookup_2]).
  unfold days_at_time in Hmo, Hmc.
  rewrite list_lookup_fmap, Hd in Hmo. rewrite list_lookup_fmap, Hd in Hmc.
  simpl in Hmo, Hmc.
  rewrite day_at_time_whole_second in Hmo by done.
  rewrite day_at_time_whole_second in Hmc by done.
  injection Hmo as <-. injection Hmc as <-. cbv zeta.
  rewrite (Hfixed (normalize (session_label row)
                   + open_offset cls * NANOS_IN_DAY
                   + nanos_of_time (open_time cls))
             (normalize (session_label row)
              + close_offset cls * NANOS_IN_DAY
              + nanos_of_time (close_time cls))).
  lia.
Qed.

Lemma nominal_sessions_open_before_close_witness :
  Forall (λ row, market_open row < market_close row) (schedule toy_long_weekend).
Proof.
  apply Forall_forall.
  apply (nominal_sessions_open_before_close (toy_exchange "TOY" []) 0
           (4 * NANOS_IN_DAY)).
  - reflexivity.
  - reflexivity.
  - reflexivity.
  - reflexivity.
  - reflexivity.
  - reflexivity.
Defined.
